(** * Memory-Leak-Detector: the analysis pipeline

    A shallow embedding of [ASTParser] (the line-scanning event extractor)
    and [MemoryAnalyzer] (size estimator, allocation tracker, quality
    scanner), followed by the properties of the pipeline.

    Conventions of the embedding.
    - A JavaScript string is a [string]; its code units are the 8-bit
      characters of [ascii] (code units 0..255).
    - A JavaScript number that the code only uses as an integer (sizes, line
      numbers, counts) is a [Z] or a [nat]; the values are exact.
    - A regular expression literal of the source is a value of [regex],
      run by a backtracking matcher with the priorities of the JavaScript
      one (leftmost start, first alternative first, greedy repetition).
    - [Date.now()] is an oracle [now : nat -> N]: the value returned by the
      k-th call made through an analyzer instance.
    - [acorn], the optional structural parser, is not part of the
      repository: it is a parameter of the development. *)

From Stdlib Require Import String Ascii List ZArith Lia Bool Arith Sorted.
From Stdlib Require Import DecimalString.
Import ListNotations.
Open Scope string_scope.
Open Scope nat_scope.

(* ===================================================================== *)
(** ** JavaScript string primitives used by the sources *)
(* ===================================================================== *)

Module Js.

Definition LF : ascii := ascii_of_nat 10.
Definition CR : ascii := ascii_of_nat 13.

Definition code (c : ascii) : nat := nat_of_ascii c.

Definition between (lo hi : nat) (c : ascii) : bool :=
  (lo <=? code c) && (code c <=? hi).

(** [\d] *)
Definition is_digit (c : ascii) : bool := between 48 57 c.

(** [\w] is [A-Za-z0-9_] *)
Definition is_word (c : ascii) : bool :=
  between 65 90 c || between 97 122 c || is_digit c || (code c =? 95).

(** [\s]: white space and line terminators (TAB, LF, VT, FF, CR, SP, NBSP). *)
Definition is_space (c : ascii) : bool :=
  between 9 13 c || (code c =? 32) || (code c =? 160).

(** Line terminators: what [.] refuses and what [$] (flag m) stops at. *)
Definition is_line_terminator (c : ascii) : bool :=
  (code c =? 10) || (code c =? 13).

Definition is_empty (s : string) : bool :=
  match s with EmptyString => true | _ => false end.

(** [s.includes(sub)] *)
Fixpoint includes (s sub : string) : bool :=
  prefix sub s ||
  match s with
  | EmptyString => false
  | String _ s' => includes s' sub
  end.

Fixpoint rev_string (s : string) : string :=
  match s with
  | EmptyString => EmptyString
  | String c s' => rev_string s' ++ String c EmptyString
  end.

(** [s.endsWith(suf)] *)
Definition endsWith (s suf : string) : bool :=
  prefix (rev_string suf) (rev_string s).

Fixpoint trimStart (s : string) : string :=
  match s with
  | String c s' => if is_space c then trimStart s' else s
  | EmptyString => EmptyString
  end.

(** [s.trim()] *)
Definition trim (s : string) : string :=
  rev_string (trimStart (rev_string (trimStart s))).

(** [s.split('\n')]: never empty; the empty string gives one empty line. *)
Fixpoint split_lines (s : string) : list string :=
  match s with
  | EmptyString => [EmptyString]
  | String c s' =>
      if Ascii.eqb c LF then EmptyString :: split_lines s'
      else match split_lines s' with
           | l :: ls => String c l :: ls
           | [] => [String c EmptyString]
           end
  end.

(** [String(n)] for an integer. *)
Definition string_of_Z (z : Z) : string := NilZero.string_of_int (Z.to_int z).
Definition string_of_nat (n : nat) : string := string_of_Z (Z.of_nat n).
Definition string_of_N (n : N) : string := string_of_Z (Z.of_N n).

(** [parts.join(sep)] *)
Fixpoint join (sep : string) (parts : list string) : string :=
  match parts with
  | [] => EmptyString
  | [p] => p
  | p :: ps => p ++ sep ++ join sep ps
  end.

Definition digit_val (c : ascii) : Z := Z.of_nat (code c - 48).

Definition hex_val (c : ascii) : option Z :=
  if is_digit c then Some (digit_val c)
  else if between 97 102 c then Some (Z.of_nat (code c - 87))
  else if between 65 70 c then Some (Z.of_nat (code c - 55))
  else None.

(** The longest prefix of digits in the given radix, as a number;
    [None] when there is no digit at all. *)
Fixpoint digits_prefix (radix : Z) (dv : ascii -> option Z)
    (acc : option Z) (s : string) : option Z :=
  match s with
  | String c s' =>
      match dv c with
      | Some d =>
          digits_prefix radix dv
            (Some (radix * match acc with Some a => a | None => 0 end + d))%Z s'
      | None => acc
      end
  | EmptyString => acc
  end.

Definition dec_val (c : ascii) : option Z :=
  if is_digit c then Some (digit_val c) else None.

(** [parseInt(s)] without a radix: leading white space, an optional sign,
    an optional [0x]/[0X] prefix, then digits. [None] is NaN. *)
Definition parseInt (s : string) : option Z :=
  let s1 := trimStart s in
  let '(sign, s2) :=
    match s1 with
    | String "-" r => ((-1)%Z, r)
    | String "+" r => (1%Z, r)
    | _ => (1%Z, s1)
    end in
  let v :=
    match s2 with
    | String "0" (String x r) =>
        if Ascii.eqb x "x" || Ascii.eqb x "X"
        then digits_prefix 16 hex_val None r
        else digits_prefix 10 dec_val None s2
    | _ => digits_prefix 10 dec_val None s2
    end in
  option_map (Z.mul sign) v.

(** [parseInt(s) || d]: NaN and 0 are falsy. *)
Definition parseInt_or (s : string) (d : Z) : Z :=
  match parseInt s with
  | Some v => if (v =? 0)%Z then d else v
  | None => d
  end.

End Js.

(* ===================================================================== *)
(** ** Regular expressions: the fragment the sources use *)
(* ===================================================================== *)

Module Regex.

Inductive regex : Type :=
| Eps : regex                              (* the empty pattern *)
| Chr : ascii -> regex                     (* one literal character *)
| Cls : (ascii -> bool) -> regex           (* a character class *)
| Seq : regex -> regex -> regex
| Alt : regex -> regex -> regex            (* r1|r2, r1 first *)
| Star : bool -> regex -> regex            (* r* (true) or r*? (false) *)
| Grp : nat -> regex -> regex              (* capture group number i *)
| WordB : regex                            (* \b *)
| EndLine : regex.                         (* $ under flag m *)

Definition Plus (r : regex) : regex := Seq r (Star true r).
Definition Opt (r : regex) : regex := Alt r Eps.

Fixpoint Lit (s : string) : regex :=
  match s with
  | EmptyString => Eps
  | String c EmptyString => Chr c
  | String c s' => Seq (Chr c) (Lit s')
  end.

Fixpoint Seqs (rs : list regex) : regex :=
  match rs with
  | [] => Eps
  | [r] => r
  | r :: rs' => Seq r (Seqs rs')
  end.

Fixpoint Alts (rs : list regex) : regex :=
  match rs with
  | [] => Eps
  | [r] => r
  | r :: rs' => Alt r (Alts rs')
  end.

(** Matcher state: the character before the position, the text from the
    position on, and the captures made so far. *)
Record mstate : Type := MState {
  ms_prev : option ascii;
  ms_rest : string;
  ms_caps : list (nat * string)
}.

Fixpoint take (n : nat) (s : string) : string :=
  match n, s with
  | S n', String c s' => String c (take n' s')
  | _, _ => EmptyString
  end.

(** The text consumed between two positions of one input. *)
Definition consumed (from to : string) : string :=
  take (String.length from - String.length to) from.

Definition opt_word (o : option ascii) : bool :=
  match o with Some c => Js.is_word c | None => false end.

Definition head (s : string) : option ascii :=
  match s with String c _ => Some c | EmptyString => None end.

(** Backtracking matcher in continuation-passing style. A repetition stops
    an iteration that consumed nothing, and cannot iterate more often than
    there are characters left, which is what the counter of [loop] holds. *)
Fixpoint rmatch (r : regex) (st : mstate)
    (k : mstate -> option mstate) {struct r} : option mstate :=
  match r with
  | Eps => k st
  | Chr c =>
      match ms_rest st with
      | String c' rest =>
          if Ascii.eqb c c' then k (MState (Some c') rest (ms_caps st))
          else None
      | EmptyString => None
      end
  | Cls p =>
      match ms_rest st with
      | String c' rest =>
          if p c' then k (MState (Some c') rest (ms_caps st)) else None
      | EmptyString => None
      end
  | Seq r1 r2 => rmatch r1 st (fun st' => rmatch r2 st' k)
  | Alt r1 r2 =>
      match rmatch r1 st k with
      | Some res => Some res
      | None => rmatch r2 st k
      end
  | Star greedy r' =>
      (fix loop (n : nat) (st0 : mstate) {struct n} : option mstate :=
         match n with
         | O => k st0
         | S n' =>
             let iter :=
               rmatch r' st0 (fun st1 =>
                 if String.length (ms_rest st1) =? String.length (ms_rest st0)
                 then None else loop n' st1) in
             if greedy then
               match iter with Some res => Some res | None => k st0 end
             else
               match k st0 with Some res => Some res | None => iter end
         end) (S (String.length (ms_rest st))) st
  | Grp i r' =>
      rmatch r' st (fun st' =>
        k (MState (ms_prev st') (ms_rest st')
             ((i, consumed (ms_rest st) (ms_rest st')) :: ms_caps st')))
  | WordB =>
      if xorb (opt_word (ms_prev st)) (opt_word (head (ms_rest st)))
      then k st else None
  | EndLine =>
      match ms_rest st with
      | EmptyString => k st
      | String c _ => if Js.is_line_terminator c then k st else None
      end
  end.

(** The result of a successful match: where it starts, the matched text,
    the text after it, the captures. *)
Record match_result : Type := MatchResult {
  m_index : nat;
  m_text : string;
  m_after : string;
  m_caps : list (nat * string)
}.

(** [match[i]]: [None] is [undefined] (the group did not take part). *)
Fixpoint assoc (i : nat) (caps : list (nat * string)) : option string :=
  match caps with
  | [] => None
  | (j, s) :: rest => if i =? j then Some s else assoc i rest
  end.

Definition group (m : match_result) (i : nat) : option string :=
  assoc i (m_caps m).

(** [match[i] || ''] *)
Definition group_or_empty (m : match_result) (i : nat) : string :=
  match group m i with Some s => s | None => EmptyString end.

(** The leftmost match at or after the current position. *)
Fixpoint search_from (r : regex) (prev : option ascii) (s : string)
    (idx : nat) : option match_result :=
  match rmatch r (MState prev s []) Some with
  | Some st =>
      Some (MatchResult idx (consumed s (ms_rest st)) (ms_rest st) (ms_caps st))
  | None =>
      match s with
      | EmptyString => None
      | String c s' => search_from r (Some c) s' (S idx)
      end
  end.

(** [s.match(r)] for a pattern without flag g. *)
Definition exec (r : regex) (s : string) : option match_result :=
  search_from r None s 0.

Definition test (r : regex) (s : string) : bool :=
  match exec r s with Some _ => true | None => false end.

Definition last_char (prev : option ascii) (s : string) : option ascii :=
  match head (Js.rev_string s) with Some c => Some c | None => prev end.

(** [s.replace(r, '')] for a pattern with flag g: every match, left to
    right, is deleted; after an empty match the scan moves on by one
    character. The counter bounds the number of matches by the length. *)
Fixpoint remove_all_from (fuel : nat) (r : regex) (prev : option ascii)
    (s : string) : string :=
  match fuel with
  | O => s
  | S fuel' =>
      match search_from r prev s 0 with
      | None => s
      | Some m =>
          let before := take (m_index m) s in
          match m_text m, m_after m with
          | EmptyString, String c rest =>
              before ++ String c (remove_all_from fuel' r (Some c) rest)
          | EmptyString, EmptyString => before
          | _, after =>
              before ++
              remove_all_from fuel' r
                (last_char prev (before ++ m_text m)) after
          end
      end
  end.

Definition remove_all (r : regex) (s : string) : string :=
  remove_all_from (S (String.length s)) r None s.

(** [(s.match(r) || []).length] for a pattern with flag g. *)
Fixpoint count_from (fuel : nat) (r : regex) (prev : option ascii)
    (s : string) : nat :=
  match fuel with
  | O => 0
  | S fuel' =>
      match search_from r prev s 0 with
      | None => 0
      | Some m =>
          match m_text m, m_after m with
          | EmptyString, String c rest => S (count_from fuel' r (Some c) rest)
          | EmptyString, EmptyString => 1
          | _, after =>
              S (count_from fuel' r
                   (last_char prev (take (m_index m) s ++ m_text m)) after)
          end
      end
  end.

Definition count_all (r : regex) (s : string) : nat :=
  count_from (S (String.length s)) r None s.

(** The classes of the sources. *)
Definition w : regex := Cls Js.is_word.
Definition s : regex := Cls Js.is_space.
Definition d : regex := Cls Js.is_digit.
Definition dot : regex := Cls (fun c => negb (Js.is_line_terminator c)).
Definition any : regex := Cls (fun _ => true).
Definition notc (c : ascii) : regex := Cls (fun x => negb (Ascii.eqb x c)).
Definition ws : regex := Star true s.       (* \s* *)

End Regex.

(* ===================================================================== *)
(** ** ASTParser: the event extractor *)
(* ===================================================================== *)

Module ASTParser.
Import Regex.

Inductive NodeType : Type := Allocation | Deallocation.

(** What [evaluateExpr] can return for an argument of a structural node. *)
Inductive JsVal : Type :=
| JNum (z : Z)
| JStr (t : string)
| JBool (b : bool)
| JNull.

(** The [args] of a node: the raw text of the line scanner, the list of the
    structural walk, or none (a Deallocation node has no [args]). *)
Inductive Args : Type :=
| ArgsText (t : string)
| ArgsList (l : list JsVal)
| NoArgs.

(** A node of [ast.body]. [undefined] fields of the structural nodes are
    [None]; a [var] that is [undefined] is the empty (falsy) string. *)
Record ASTNode : Type := Node {
  n_type : NodeType;
  n_var : string;
  n_line : nat;
  n_function : string;
  n_args : Args;
  n_functionName : option string;
  n_inLoop : bool;
  n_originalLine : option string
}.

Record AST : Type := Program {
  body : list ASTNode;
  source : string
}.

(** The first pattern of the list that matches, as [for ... of] with
    [return] finds it. *)
Fixpoint first_match (patterns : list regex) (line : string)
    : option match_result :=
  match patterns with
  | [] => None
  | p :: ps =>
      match exec p line with
      | Some m => Some m
      | None => first_match ps line
      end
  end.

Definition allocFns : regex := Alts [Lit "malloc"; Lit "calloc"; Lit "realloc"].

(** [patterns] of [parseCAllocation]. Where a quoted pattern of the source
    has a star right before a closing parenthesis, the quotation puts a
    space between the two. *)
Definition patterns : list regex :=
  [ (* /\w+\s+\*\s*(\w+)\s*=\s*(malloc|calloc|realloc)\s*\(\s*([^)]+)\s*\)/ *)
    Seqs [Plus w; Plus s; Chr "*"; ws; Grp 1 (Plus w); ws; Chr "="; ws;
          Grp 2 allocFns; ws; Chr "("; ws; Grp 3 (Plus (notc ")")); ws;
          Chr ")"];
    (* /\w+\*\s*(\w+)\s*=\s*(malloc|calloc|realloc)\s*\(\s*([^)]+)\s*\)/ *)
    Seqs [Plus w; Chr "*"; ws; Grp 1 (Plus w); ws; Chr "="; ws;
          Grp 2 allocFns; ws; Chr "("; ws; Grp 3 (Plus (notc ")")); ws;
          Chr ")"];
    (* /(\w+)\s*=\s*\([^)]*\)\s*(malloc|calloc|realloc)\s*\(\s*([^)]+)\s*\)/ *)
    Seqs [Grp 1 (Plus w); ws; Chr "="; ws; Chr "("; Star true (notc ")");
          Chr ")"; ws; Grp 2 allocFns; ws; Chr "("; ws;
          Grp 3 (Plus (notc ")")); ws; Chr ")"];
    (* /(\w+)\s*=\s*(malloc|calloc|realloc)\s*\(\s*([^)]+)\s*\)/ *)
    Seqs [Grp 1 (Plus w); ws; Chr "="; ws; Grp 2 allocFns; ws; Chr "("; ws;
          Grp 3 (Plus (notc ")")); ws; Chr ")"] ].

(** [cppPatterns] of [parseCAllocation] *)
Definition cppPatterns : list regex :=
  [ (* /\w+\s+\*\s*(\w+)\s*=\s*new\s+\w+\s*\(\s*([^)]* )\s*\)/ *)
    Seqs [Plus w; Plus s; Chr "*"; ws; Grp 1 (Plus w); ws; Chr "="; ws;
          Lit "new"; Plus s; Plus w; ws; Chr "("; ws;
          Grp 2 (Star true (notc ")")); ws; Chr ")"];
    (* /\w+\*\s*(\w+)\s*=\s*new\s+\w+\s*\(\s*([^)]* )\s*\)/ *)
    Seqs [Plus w; Chr "*"; ws; Grp 1 (Plus w); ws; Chr "="; ws;
          Lit "new"; Plus s; Plus w; ws; Chr "("; ws;
          Grp 2 (Star true (notc ")")); ws; Chr ")"];
    (* /\w+\s+\*\s*(\w+)\s*=\s*new\s+\w+/ *)
    Seqs [Plus w; Plus s; Chr "*"; ws; Grp 1 (Plus w); ws; Chr "="; ws;
          Lit "new"; Plus s; Plus w];
    (* /\w+\*\s*(\w+)\s*=\s*new\s+\w+/ *)
    Seqs [Plus w; Chr "*"; ws; Grp 1 (Plus w); ws; Chr "="; ws;
          Lit "new"; Plus s; Plus w];
    (* /\w+\s+\*\s*(\w+)\s*=\s*new\s+\w+\s*\[\s*([^\]]+)\s*\]/ *)
    Seqs [Plus w; Plus s; Chr "*"; ws; Grp 1 (Plus w); ws; Chr "="; ws;
          Lit "new"; Plus s; Plus w; ws; Chr "["; ws;
          Grp 2 (Plus (notc "]")); ws; Chr "]"];
    (* /\w+\*\s*(\w+)\s*=\s*new\s+\w+\s*\[\s*([^\]]+)\s*\]/ *)
    Seqs [Plus w; Chr "*"; ws; Grp 1 (Plus w); ws; Chr "="; ws;
          Lit "new"; Plus s; Plus w; ws; Chr "["; ws;
          Grp 2 (Plus (notc "]")); ws; Chr "]"];
    (* /(\w+)\s*=\s*new\s+\w+\s*\(\s*([^)]* )\s*\)/ *)
    Seqs [Grp 1 (Plus w); ws; Chr "="; ws; Lit "new"; Plus s; Plus w; ws;
          Chr "("; ws; Grp 2 (Star true (notc ")")); ws; Chr ")"];
    (* /(\w+)\s*=\s*new\s+\w+/ *)
    Seqs [Grp 1 (Plus w); ws; Chr "="; ws; Lit "new"; Plus s; Plus w];
    (* /(\w+)\s*=\s*new\s+\w+\s*\[\s*([^\]]+)\s*\]/ *)
    Seqs [Grp 1 (Plus w); ws; Chr "="; ws; Lit "new"; Plus s; Plus w; ws;
          Chr "["; ws; Grp 2 (Plus (notc "]")); ws; Chr "]"] ].

Definition parseCAllocation (line : string) (lineNum : nat)
    (originalLine : string) (functionName : option string) (inLoop : bool)
    : option ASTNode :=
  match first_match patterns line with
  | Some m =>
      Some {| n_type := Allocation;
              n_var := group_or_empty m 1;
              n_line := lineNum;
              n_function := group_or_empty m 2;
              n_args := ArgsText (group_or_empty m 3);
              n_functionName := functionName;
              n_inLoop := inLoop;
              n_originalLine := Some (Js.trim originalLine) |}
  | None =>
      match first_match cppPatterns line with
      | Some m =>
          let isArray := Js.includes line "[" && Js.includes line "]" in
          Some {| n_type := Allocation;
                  n_var := group_or_empty m 1;
                  n_line := lineNum;
                  n_function := if isArray then "new[]" else "new";
                  n_args := ArgsText (group_or_empty m 2);
                  n_functionName := functionName;
                  n_inLoop := inLoop;
                  n_originalLine := Some (Js.trim originalLine) |}
      | None => None
      end
  end.

(** [/free\s*\(\s*(\w+)\s*\)/] *)
Definition freePattern : regex :=
  Seqs [Lit "free"; ws; Chr "("; ws; Grp 1 (Plus w); ws; Chr ")"].

(** [/delete\s*\[\s*\]\s*(?:\(\s* )?(\w+)(?:\s*\))?/] *)
Definition deleteArrayPattern : regex :=
  Seqs [Lit "delete"; ws; Chr "["; ws; Chr "]"; ws;
        Opt (Seq (Chr "(") ws); Grp 1 (Plus w); Opt (Seq ws (Chr ")"))].

(** [/delete\s+(?:\(\s* )?(\w+)(?:\s*\))?/] *)
Definition deletePattern : regex :=
  Seqs [Lit "delete"; Plus s; Opt (Seq (Chr "(") ws); Grp 1 (Plus w);
        Opt (Seq ws (Chr ")"))].

Definition deallocNode (m : match_result) (lineNum : nat) (fn : string)
    (originalLine : string) : ASTNode :=
  {| n_type := Deallocation;
     n_var := group_or_empty m 1;
     n_line := lineNum;
     n_function := fn;
     n_args := NoArgs;
     n_functionName := None;
     n_inLoop := false;
     n_originalLine := Some (Js.trim originalLine) |}.

Definition parseCDeallocation (line : string) (lineNum : nat)
    (originalLine : string) : option ASTNode :=
  match exec freePattern line with
  | Some m => Some (deallocNode m lineNum "free" originalLine)
  | None =>
      match exec deleteArrayPattern line with
      | Some m => Some (deallocNode m lineNum "delete[]" originalLine)
      | None =>
          match exec deletePattern line with
          | Some m => Some (deallocNode m lineNum "delete" originalLine)
          | None => None
          end
      end
  end.

(** The variables that the callback of [lines.forEach] in [parseC] closes
    over. *)
Record PState : Type := mkPState {
  nodes : list ASTNode;
  currentFunction : option string;
  braceDepth : Z;
  inLoop : bool;
  loopDepth : nat;
  currentStatement : string;
  statementStartLine : nat;
  inStatement : bool
}.

Definition initPState : PState :=
  {| nodes := []; currentFunction := None; braceDepth := 0%Z;
     inLoop := false; loopDepth := 0; currentStatement := EmptyString;
     statementStartLine := 0; inStatement := false |}.

(** [/(\w+)\s*\([^)]*\)\s*\{?/] *)
Definition funcPattern : regex :=
  Seqs [Grp 1 (Plus w); ws; Chr "("; Star true (notc ")"); Chr ")"; ws;
        Opt (Chr "{")].

(** [/\b(if|while|for|switch)\s*\(/] *)
Definition controlPattern : regex :=
  Seqs [WordB; Grp 1 (Alts [Lit "if"; Lit "while"; Lit "for"; Lit "switch"]);
        ws; Chr "("].

(** [/\b(for|while|do)\s*\(/] *)
Definition loopPattern : regex :=
  Seqs [WordB; Grp 1 (Alts [Lit "for"; Lit "while"; Lit "do"]); ws; Chr "("].

Definition push_opt (ns : list ASTNode) (o : option ASTNode) : list ASTNode :=
  match o with
  | Some n => app ns [n]
  | None => ns
  end.

(** [a || b] on line numbers: 0 is falsy. *)
Definition nat_or (a b : nat) : nat := if a =? 0 then b else a.

(** One call of the callback of [lines.forEach] in [parseC]. *)
Definition parseC_line (st : PState) (index : nat) (line : string) : PState :=
  let lineNum := index + 1 in
  let trimmed := Js.trim line in
  if Js.is_empty trimmed then
    if inStatement st then
      {| nodes := nodes st; currentFunction := currentFunction st;
         braceDepth := braceDepth st; inLoop := inLoop st;
         loopDepth := loopDepth st;
         currentStatement := currentStatement st ++ " " ++ trimmed;
         statementStartLine := statementStartLine st;
         inStatement := inStatement st |}
    else st
  else
    let currentFunction1 :=
      match exec funcPattern trimmed with
      | Some m =>
          if negb (test controlPattern trimmed) then group m 1
          else currentFunction st
      | None => currentFunction st
      end in
    let isLoopHead := test loopPattern trimmed in
    let inLoop1 := if isLoopHead then true else inLoop st in
    let loopDepth1 := if isLoopHead then S (loopDepth st) else loopDepth st in
    let openBraces := count_all (Chr "{") trimmed in
    let closeBraces := count_all (Chr "}") trimmed in
    let braceDepth1 :=
      (braceDepth st + (Z.of_nat openBraces - Z.of_nat closeBraces))%Z in
    if Js.endsWith trimmed "\" ||
       (negb (Js.endsWith trimmed ";") && negb (Js.endsWith trimmed "{")
        && negb (Js.endsWith trimmed "}"))
    then
      if negb (inStatement st) then
        {| nodes := nodes st; currentFunction := currentFunction1;
           braceDepth := braceDepth1; inLoop := inLoop1;
           loopDepth := loopDepth1;
           currentStatement := trimmed;
           statementStartLine := lineNum;
           inStatement := true |}
      else
        {| nodes := nodes st; currentFunction := currentFunction1;
           braceDepth := braceDepth1; inLoop := inLoop1;
           loopDepth := loopDepth1;
           currentStatement := currentStatement st ++ " " ++ trimmed;
           statementStartLine := statementStartLine st;
           inStatement := true |}
    else
      let statement :=
        if inStatement st then currentStatement st ++ " " ++ trimmed
        else trimmed in
      let startLine :=
        if inStatement st then nat_or (statementStartLine st) lineNum
        else lineNum in
      let alloc :=
        parseCAllocation statement startLine line currentFunction1 inLoop1 in
      let dealloc := parseCDeallocation statement startLine line in
      let nodes1 := push_opt (push_opt (nodes st) alloc) dealloc in
      let currentStatement1 :=
        if inStatement st then EmptyString else currentStatement st in
      let statementStartLine1 :=
        if inStatement st then 0 else statementStartLine st in
      let atTop := (braceDepth1 =? 0)%Z in
      let closesLoop := atTop && inLoop1 && (0 <? loopDepth1) in
      let loopDepth2 := if closesLoop then loopDepth1 - 1 else loopDepth1 in
      let inLoop2 :=
        if closesLoop && (loopDepth2 =? 0) then false else inLoop1 in
      let currentFunction2 :=
        if atTop then
          match currentFunction1 with
          | Some f => if Js.is_empty f then Some f else None
          | None => None
          end
        else currentFunction1 in
      {| nodes := nodes1; currentFunction := currentFunction2;
         braceDepth := braceDepth1; inLoop := inLoop2;
         loopDepth := loopDepth2;
         currentStatement := currentStatement1;
         statementStartLine := statementStartLine1;
         inStatement := false |}.

(** [lines.forEach((line, index) => ...)] *)
Fixpoint parseC_lines (st : PState) (index : nat) (lines : list string)
    : PState :=
  match lines with
  | [] => st
  | line :: rest => parseC_lines (parseC_line st index line) (S index) rest
  end.

Definition parseC (code : string) : AST :=
  {| body := nodes (parseC_lines initPState 0 (Js.split_lines code));
     source := code |}.

Definition parseGeneric (code : string) : AST := parseC code.
Definition parsePython (code : string) : AST := parseGeneric code.
Definition parseJava (code : string) : AST := parseGeneric code.
Definition parseRust (code : string) : AST := parseGeneric code.
Definition parseGo (code : string) : AST := parseGeneric code.

(** [/\/\/.*$/gm] *)
Definition lineComment : regex := Seqs [Lit "//"; Star true dot; EndLine].

(** [/\/\*[\s\S]*?\*\//g] *)
Definition blockComment : regex := Seqs [Lit "/*"; Star false any; Lit "*/"].

Definition removeComments (code : string) : string :=
  let cleaned := remove_all lineComment code in
  remove_all blockComment cleaned.

Section WithAcorn.

(** The structural parser: [None] when the global [acorn] is undefined;
    otherwise, for a source text, the events that [convertAcornAST] collects
    from the tree of [acorn.parse], or [None] when [acorn.parse] throws. *)
Variable acorn : option (string -> option (list ASTNode)).

Definition parseJavaScript (code : string) : AST :=
  match acorn with
  | Some structural =>
      match structural code with
      | Some events => {| body := events; source := EmptyString |}
      | None => parseGeneric code
      end
  | None => parseGeneric code
  end.

(** [parse(code)] of a parser built for [language], on a string. The empty
    string raises inside and is caught by the outer handler of [parse]. *)
Definition parse (language : string) (code : string) : AST :=
  if Js.is_empty code then {| body := []; source := code |}
  else
    let cleanedCode := removeComments code in
    if String.eqb language "javascript" then parseJavaScript cleanedCode
    else if String.eqb language "c" || String.eqb language "cpp"
    then parseC cleanedCode
    else if String.eqb language "python" then parsePython cleanedCode
    else if String.eqb language "java" then parseJava cleanedCode
    else if String.eqb language "rust" then parseRust cleanedCode
    else if String.eqb language "go" then parseGo cleanedCode
    else parseGeneric cleanedCode.

End WithAcorn.

End ASTParser.

(* ===================================================================== *)
(** ** CONFIG *)
(* ===================================================================== *)

Module CONFIG.

Module TYPE_SIZES.
Definition CHAR : Z := 1.
Definition SHORT : Z := 2.
Definition INT : Z := 4.
Definition FLOAT : Z := 4.
Definition DOUBLE : Z := 8.
Definition LONG_LONG : Z := 8.
Definition LONG_DOUBLE : Z := 16.
Definition DEFAULT : Z := 4.
End TYPE_SIZES.

Definition LANGUAGE_SIZES : list (string * Z) :=
  [("javascript", 8); ("python", 8); ("rust", 8); ("go", 8); ("java", 4);
   ("c", 4); ("cpp", 4)]%Z.

End CONFIG.

(* ===================================================================== *)
(** ** A JavaScript [Map] with string keys: insertion order is kept *)
(* ===================================================================== *)

Module JsMap.
Section Map.
Variable V : Type.

Definition t : Type := list (string * V).

Definition empty : t := [].

Fixpoint get (k : string) (m : t) : option V :=
  match m with
  | [] => None
  | (k', v) :: rest => if String.eqb k k' then Some v else get k rest
  end.

Definition has (k : string) (m : t) : bool :=
  match get k m with Some _ => true | None => false end.

(** An existing key keeps its place; a new key goes to the end. *)
Fixpoint set (k : string) (v : V) (m : t) : t :=
  match m with
  | [] => [(k, v)]
  | (k', v') :: rest =>
      if String.eqb k k' then (k, v) :: rest else (k', v') :: set k v rest
  end.

Fixpoint delete (k : string) (m : t) : t :=
  match m with
  | [] => []
  | (k', v') :: rest =>
      if String.eqb k k' then delete k rest else (k', v') :: delete k rest
  end.

End Map.
Arguments empty {V}.
Arguments get {V} k m.
Arguments has {V} k m.
Arguments set {V} k v m.
Arguments delete {V} k m.
End JsMap.

(* ===================================================================== *)
(** ** MemoryAnalyzer: records *)
(* ===================================================================== *)

Module MemoryAnalyzer.
Import ASTParser.

(** The object built by [processASTAllocation]. *)
Record Alloc : Type := mkAlloc {
  a_var : string;
  a_line : nat;
  a_function : string;
  a_size : Z;
  a_lineText : string;
  a_inLoop : bool;
  a_inFunction : bool;
  a_functionName : option string;
  a_allocId : string;
  a_language : string
}.

(** The object built by [processASTDeallocation]. *)
Record Free : Type := mkFree {
  f_var : string;
  f_line : nat;
  f_lineText : string;
  f_language : string;
  f_isArray : bool
}.

(** An entry of [analysis.frees]. *)
Record FreeEntry : Type := mkFreeEntry {
  fe_var : string;
  fe_line : nat;
  fe_lineText : string;
  fe_freedAllocId : string
}.

(** An entry of [analysis.leaks]. *)
Record Leak : Type := mkLeak {
  l_var : string;
  l_line : nat;
  l_function : string;
  l_size : Z;
  l_inLoop : bool;
  l_fix : string
}.

(** An entry of [analysis.warnings]. *)
Record Warning : Type := mkWarning {
  w_type : string;
  w_line : nat;
  w_message : string;
  w_lineText : string
}.

(** An entry of [this.timeline]. *)
Record Sample : Type := mkSample {
  s_line : nat;
  s_memory : Z
}.

(** The object [analysis] that [analyze] builds and returns. *)
Record Analysis : Type := mkAnalysis {
  allocations : list Alloc;
  frees : list FreeEntry;
  leaks : list Leak;
  warnings : list Warning;
  timeline : list Sample
}.

(** What a call does: return a value or throw an [Error] with a message. *)
Inductive Outcome (A : Type) : Type :=
| Returns (a : A)
| Throws (message : string).
Arguments Returns {A} a.
Arguments Throws {A} message.

(** The fields of a [MemoryAnalyzer] instance. [this_astParser] is the
    [parse] method of the object in [this.astParser]; [this_clock] counts
    the calls of [Date.now()] made so far. The fields [this.frees] and
    [this.warnings] are written by the constructor only and left out. *)
Record Analyzer : Type := mkAnalyzer {
  this_language : string;
  this_astParser : string -> Outcome AST;
  this_allocations : JsMap.t (list Alloc);
  this_timeline : list Sample;
  this_currentMemory : Z;
  this_clock : nat
}.

Definition set_allocations (this : Analyzer) (m : JsMap.t (list Alloc))
    : Analyzer :=
  {| this_language := this_language this;
     this_astParser := this_astParser this;
     this_allocations := m;
     this_timeline := this_timeline this;
     this_currentMemory := this_currentMemory this;
     this_clock := this_clock this |}.

Definition set_currentMemory (this : Analyzer) (z : Z) : Analyzer :=
  {| this_language := this_language this;
     this_astParser := this_astParser this;
     this_allocations := this_allocations this;
     this_timeline := this_timeline this;
     this_currentMemory := z;
     this_clock := this_clock this |}.

Definition set_timeline (this : Analyzer) (tl : list Sample) : Analyzer :=
  {| this_language := this_language this;
     this_astParser := this_astParser this;
     this_allocations := this_allocations this;
     this_timeline := tl;
     this_currentMemory := this_currentMemory this;
     this_clock := this_clock this |}.

Definition tick (this : Analyzer) : Analyzer :=
  {| this_language := this_language this;
     this_astParser := this_astParser this;
     this_allocations := this_allocations this;
     this_timeline := this_timeline this;
     this_currentMemory := this_currentMemory this;
     this_clock := S (this_clock this) |}.

Definition push_allocation (an : Analysis) (a : Alloc) : Analysis :=
  {| allocations := app (allocations an) [a]; frees := frees an;
     leaks := leaks an; warnings := warnings an; timeline := timeline an |}.

Definition push_free (an : Analysis) (f : FreeEntry) : Analysis :=
  {| allocations := allocations an; frees := app (frees an) [f];
     leaks := leaks an; warnings := warnings an; timeline := timeline an |}.

Definition push_leak (an : Analysis) (l : Leak) : Analysis :=
  {| allocations := allocations an; frees := frees an;
     leaks := app (leaks an) [l]; warnings := warnings an;
     timeline := timeline an |}.

Definition push_warning (an : Analysis) (x : Warning) : Analysis :=
  {| allocations := allocations an; frees := frees an;
     leaks := leaks an; warnings := app (warnings an) [x];
     timeline := timeline an |}.

(* --------------------------------------------------------------------- *)
(** *** Size estimation *)

(** [/(\d+)\s*,\s*(\d+)/] *)
Definition callocPattern : Regex.regex :=
  Regex.Seqs [Regex.Grp 1 (Regex.Plus Regex.d); Regex.ws; Regex.Chr ",";
              Regex.ws; Regex.Grp 2 (Regex.Plus Regex.d)].

(** [/(\d+)\s*\*\s*sizeof\s*\([^)]+\)/] *)
Definition sizeofPattern1 : Regex.regex :=
  Regex.Seqs [Regex.Grp 1 (Regex.Plus Regex.d); Regex.ws; Regex.Chr "*";
              Regex.ws; Regex.Lit "sizeof"; Regex.ws; Regex.Chr "(";
              Regex.Plus (Regex.notc ")"); Regex.Chr ")"].

(** [/sizeof\s*\([^)]+\)\s*\*\s*(\d+)/] *)
Definition sizeofPattern2 : Regex.regex :=
  Regex.Seqs [Regex.Lit "sizeof"; Regex.ws; Regex.Chr "(";
              Regex.Plus (Regex.notc ")"); Regex.Chr ")"; Regex.ws;
              Regex.Chr "*"; Regex.ws; Regex.Grp 1 (Regex.Plus Regex.d)].

(** [/(\d+)/] *)
Definition numPattern : Regex.regex := Regex.Grp 1 (Regex.Plus Regex.d).

(** [/sizeof\s*\(([^)]+)\)/] *)
Definition sizeofTypePattern : Regex.regex :=
  Regex.Seqs [Regex.Lit "sizeof"; Regex.ws; Regex.Chr "(";
              Regex.Grp 1 (Regex.Plus (Regex.notc ")")); Regex.Chr ")"].

(** The fall-through of [getTypeSize] on the whole argument text. *)
Definition typeSizeOfArgs (args : string) : Z :=
  if Js.includes args "char" then CONFIG.TYPE_SIZES.CHAR
  else if Js.includes args "int" || Js.includes args "float"
  then CONFIG.TYPE_SIZES.INT
  else if Js.includes args "double" then CONFIG.TYPE_SIZES.DOUBLE
  else CONFIG.TYPE_SIZES.DEFAULT.

Definition getTypeSize (args : string) : Z :=
  match Regex.exec sizeofTypePattern args with
  | Some sizeofMatch =>
      let type := Js.trim (Regex.group_or_empty sizeofMatch 1) in
      if Js.includes type "char" then CONFIG.TYPE_SIZES.CHAR
      else if Js.includes type "int" || Js.includes type "float"
      then CONFIG.TYPE_SIZES.INT
      else if Js.includes type "double" || Js.includes type "long long"
      then CONFIG.TYPE_SIZES.DOUBLE
      else typeSizeOfArgs args
  | None => typeSizeOfArgs args
  end.

(** [parseInt(match[i]) || 1] *)
Definition countOf (m : Regex.match_result) (i : nat) : Z :=
  Js.parseInt_or (Regex.group_or_empty m i) 1.

(** The part of [calculateSizeFromAST] for 'c' and 'cpp' after the calloc
    test. *)
Definition cFamilySize (language : string) (fn : string) (args : string) : Z :=
  match Regex.exec sizeofPattern1 args with
  | Some m => (countOf m 1 * getTypeSize args)%Z
  | None =>
      match Regex.exec sizeofPattern2 args with
      | Some m => (countOf m 1 * getTypeSize args)%Z
      | None =>
          match Regex.exec numPattern args with
          | Some numMatch => countOf numMatch 1
          | None =>
              if String.eqb language "cpp" then
                if String.eqb fn "new[]" then
                  match Regex.exec numPattern args with
                  | Some arrayMatch =>
                      (countOf arrayMatch 1 * CONFIG.TYPE_SIZES.DEFAULT)%Z
                  | None => 1%Z
                  end
                else if String.eqb fn "new" then CONFIG.TYPE_SIZES.DEFAULT
                else 1%Z
              else 1%Z
          end
      end
  end.

(** [CONFIG.LANGUAGE_SIZES[language] || CONFIG.TYPE_SIZES.DEFAULT] *)
Definition langSizeOf (language : string) : Z :=
  match JsMap.get language CONFIG.LANGUAGE_SIZES with
  | Some z => z
  | None => CONFIG.TYPE_SIZES.DEFAULT
  end.

(** [typeof sizeArg === 'number' ? sizeArg : parseInt(sizeArg) || 1] where
    [sizeArg] is the first element of the list or [(astNode.args || '1')]. *)
Definition countFromArgs (a : Args) : Z :=
  match a with
  | ArgsList (JNum z :: _) => z
  | ArgsList (JStr t :: _) => Js.parseInt_or t 1
  | ArgsList _ => 1%Z
  | ArgsText t => if Js.is_empty t then 1%Z else Js.parseInt_or t 1
  | NoArgs => 1%Z
  end.

Definition calculateSizeFromAST (language : string) (astNode : ASTNode)
    (args : string) : Z :=
  if String.eqb language "c" || String.eqb language "cpp" then
    if String.eqb (n_function astNode) "calloc" then
      match Regex.exec callocPattern args with
      | Some callocMatch => (countOf callocMatch 1 * countOf callocMatch 2)%Z
      | None => cFamilySize language (n_function astNode) args
      end
    else cFamilySize language (n_function astNode) args
  else
    let langSize := langSizeOf language in
    if String.eqb language "javascript" then
      match n_args astNode with
      | ArgsList l =>
          let size :=
            match l with
            | JNum z :: _ => if (z =? 0)%Z then 1%Z else z
            | _ => 1%Z
            end in
          (size * langSize)%Z
      | _ => langSize
      end
    else if String.eqb language "python" || String.eqb language "rust"
            || String.eqb language "go"
    then (countFromArgs (n_args astNode) * langSize)%Z
    else if String.eqb language "java"
    then (countFromArgs (n_args astNode) * langSize)%Z
    else 1%Z.

Definition getLineFromCode (code : string) (lineNum : nat) : string :=
  match lineNum with
  | O => EmptyString
  | S i => nth i (Js.split_lines code) EmptyString
  end.

(** [String(v)] inside [Array.prototype.join]: [null] gives the empty
    string. *)
Definition joinItem (v : JsVal) : string :=
  match v with
  | JNum z => Js.string_of_Z z
  | JStr t => t
  | JBool true => "true"
  | JBool false => "false"
  | JNull => EmptyString
  end.

(** [Array.isArray(astNode.args) ? astNode.args.join(', ') :
     (astNode.args || '')] *)
Definition argsText (a : Args) : string :=
  match a with
  | ArgsList l => Js.join ", " (map joinItem l)
  | ArgsText t => t
  | NoArgs => EmptyString
  end.

(** [astNode.originalLine || this.getLineFromCode(originalCode, line)] *)
Definition lineTextOf (astNode : ASTNode) (originalCode : string) : string :=
  match n_originalLine astNode with
  | Some t =>
      if Js.is_empty t then getLineFromCode originalCode (n_line astNode)
      else t
  | None => getLineFromCode originalCode (n_line astNode)
  end.

(** [astNode.functionName || null] *)
Definition functionNameOf (astNode : ASTNode) : option string :=
  match n_functionName astNode with
  | Some f => if Js.is_empty f then None else Some f
  | None => None
  end.

Section Tracker.

(** [now k] is what the k-th call of [Date.now()] returns. *)
Variable now : nat -> N.

Definition allocIdOf (var : string) (line : nat) (stamp : N) : string :=
  var ++ "_line" ++ Js.string_of_nat line ++ "_" ++ Js.string_of_N stamp.

(** [processASTAllocation]: the record, and the instance after the call of
    [Date.now()]. No parser of the repository sets [astNode.inFunction]. *)
Definition processASTAllocation (this : Analyzer) (astNode : ASTNode)
    (originalCode : string) : Alloc * Analyzer :=
  let args := argsText (n_args astNode) in
  let size := calculateSizeFromAST (this_language this) astNode args in
  ({| a_var := n_var astNode;
      a_line := n_line astNode;
      a_function := n_function astNode;
      a_size := size;
      a_lineText := lineTextOf astNode originalCode;
      a_inLoop := n_inLoop astNode;
      a_inFunction := false;
      a_functionName := functionNameOf astNode;
      a_allocId :=
        allocIdOf (n_var astNode) (n_line astNode) (now (this_clock this));
      a_language := this_language this |},
   tick this).

Definition processASTDeallocation (this : Analyzer) (astNode : ASTNode)
    (originalCode : string) : Free :=
  {| f_var := n_var astNode;
     f_line := n_line astNode;
     f_lineText := lineTextOf astNode originalCode;
     f_language := this_language this;
     f_isArray := String.eqb (n_function astNode) "delete[]" |}.

(* --------------------------------------------------------------------- *)
(** *** The allocation tracker *)

Definition last_opt {A : Type} (l : list A) : option A :=
  match rev l with
  | x :: _ => Some x
  | [] => None
  end.

(** [s || d] on strings: the empty string is falsy. *)
Definition str_or (t d : string) : string := if Js.is_empty t then d else t.

Definition reassignFix (alloc lastAlloc : Alloc) : string :=
  "Memory leak: " ++ a_var alloc ++ " was reassigned on line "
  ++ Js.string_of_nat (a_line alloc)
  ++ " without freeing the previous allocation on line "
  ++ Js.string_of_nat (a_line lastAlloc)
  ++ ". Add free(" ++ a_var alloc ++ "); before the reassignment.".

(** The leak that [handleAllocation] pushes for the record it evicts. *)
Definition reassignLeak (alloc lastAlloc : Alloc) : Leak :=
  {| l_var := a_var alloc;
     l_line := a_line lastAlloc;
     l_function := str_or (a_function lastAlloc) "unknown";
     l_size := a_size lastAlloc;
     l_inLoop := a_inLoop lastAlloc;
     l_fix := reassignFix alloc lastAlloc |}.

(** The tracker works on the instance and on the [analysis] object. *)
Definition TState : Type := (Analyzer * Analysis)%type.

Definition handleAllocation (alloc : Alloc) (st : TState) : TState :=
  let '(this, analysis) := st in
  if Js.is_empty (a_var alloc) then st
  else
    let '(this1, analysis1) :=
      match JsMap.get (a_var alloc) (this_allocations this) with
      | Some existingAllocs =>
          match last_opt existingAllocs with
          | Some lastAlloc =>
              let analysis' :=
                push_leak analysis (reassignLeak alloc lastAlloc) in
              let this' :=
                set_currentMemory this
                  (this_currentMemory this - a_size lastAlloc)%Z in
              (set_allocations this'
                 (JsMap.set (a_var alloc) (removelast existingAllocs)
                    (this_allocations this')),
               analysis')
          | None => (this, analysis)
          end
      | None => (this, analysis)
      end in
    let this2 :=
      if negb (JsMap.has (a_var alloc) (this_allocations this1))
      then set_allocations this1
             (JsMap.set (a_var alloc) [] (this_allocations this1))
      else this1 in
    let this3 :=
      match JsMap.get (a_var alloc) (this_allocations this2) with
      | Some stack =>
          set_allocations this2
            (JsMap.set (a_var alloc) (app stack [alloc])
               (this_allocations this2))
      | None => this2
      end in
    (set_currentMemory this3 (this_currentMemory this3 + a_size alloc)%Z,
     push_allocation analysis1 alloc).

Definition handleFree (free : Free) (st : TState) : TState :=
  let '(this, analysis) := st in
  if Js.is_empty (f_var free) then st
  else
    match JsMap.get (f_var free) (this_allocations this) with
    | None =>
        (this,
         push_warning analysis
           {| w_type := "Potential Double Free";
              w_line := f_line free;
              w_message :=
                "free() called on " ++ f_var free
                ++ " which may not be allocated or already freed.";
              w_lineText := f_lineText free |})
    | Some allocs =>
        match last_opt allocs with
        | None =>
            (this,
             push_warning analysis
               {| w_type := "Double Free";
                  w_line := f_line free;
                  w_message :=
                    "free() called on " ++ f_var free
                    ++ " which has already been freed.";
                  w_lineText := f_lineText free |})
        | Some freedAlloc =>
            let allocs' := removelast allocs in
            let analysis1 :=
              push_free analysis
                {| fe_var := f_var free;
                   fe_line := f_line free;
                   fe_lineText := f_lineText free;
                   fe_freedAllocId := a_allocId freedAlloc |} in
            let this1 :=
              set_currentMemory
                (set_allocations this
                   (JsMap.set (f_var free) allocs' (this_allocations this)))
                (this_currentMemory this - a_size freedAlloc)%Z in
            let this2 :=
              match allocs' with
              | [] =>
                  set_allocations this1
                    (JsMap.delete (f_var free) (this_allocations this1))
              | _ => this1
              end in
            (this2, analysis1)
        end
    end.

Definition detectCodeQualityIssues (line : string) (lineNum : nat)
    (originalLine : string) (analysis : Analysis) : Analysis :=
  if Js.is_empty line then analysis
  else if Js.includes line "strcpy(" && negb (Js.includes line "strncpy")
  then
    push_warning analysis
      {| w_type := "Unsafe Function";
         w_line := lineNum;
         w_message :=
           "strcpy() used without bounds checking. Consider using strncpy() or strcpy_s().";
         w_lineText := Js.trim originalLine |}
  else analysis.

Definition leakFix (varName : string) (alloc : Alloc) : string :=
  if a_inLoop alloc then
    "Add free(" ++ varName
    ++ "); inside the loop after use, or collect pointers and free them after the loop."
  else
    match a_inFunction alloc, a_functionName alloc with
    | true, Some fname =>
        if negb (Js.is_empty fname) && negb (String.eqb fname "main") then
          "Memory allocated in " ++ fname ++ "() on line "
          ++ Js.string_of_nat (a_line alloc)
          ++ ". Ensure caller frees this memory, or free it before function return."
        else
          "Add free(" ++ varName
          ++ "); before function return or at appropriate cleanup point."
    | _, _ =>
        "Add free(" ++ varName
        ++ "); before function return or at appropriate cleanup point."
    end.

Definition leakOf (varName : string) (alloc : Alloc) : Leak :=
  {| l_var := str_or varName "unknown";
     l_line := a_line alloc;
     l_function := str_or (a_function alloc) "unknown";
     l_size := a_size alloc;
     l_inLoop := a_inLoop alloc;
     l_fix := leakFix varName alloc |}.

(** [this.allocations.forEach((allocs, varName) => allocs.forEach(...))] *)
Fixpoint liveLeaks (m : JsMap.t (list Alloc)) : list Leak :=
  match m with
  | [] => []
  | (varName, allocs) :: rest =>
      app (map (leakOf varName) allocs) (liveLeaks rest)
  end.

Definition findLeaks (this : Analyzer) (analysis : Analysis) : Analysis :=
  {| allocations := allocations analysis; frees := frees analysis;
     leaks := app (leaks analysis) (liveLeaks (this_allocations this));
     warnings := warnings analysis; timeline := timeline analysis |}.

Definition updateTimeline (lineNum : nat) (this : Analyzer) : Analyzer :=
  set_timeline this
    (app (this_timeline this)
       [{| s_line := lineNum; s_memory := this_currentMemory this |}]).

(** The callback of [astBody.forEach] in [analyze]. *)
Definition processNode (code : string) (st : TState) (node : ASTNode)
    : TState :=
  let '(this, analysis) := st in
  let '(this1, analysis1) :=
    match n_type node with
    | Allocation =>
        let '(alloc, this') := processASTAllocation this node code in
        handleAllocation alloc (this', analysis)
    | Deallocation =>
        handleFree (processASTDeallocation this node code) (this, analysis)
    end in
  (updateTimeline (nat_or (n_line node) 1) this1, analysis1).

Definition processNodes (code : string) (st : TState) (astBody : list ASTNode)
    : TState :=
  fold_left (processNode code) astBody st.

(** The callback of [lines.forEach] in [analyze], from line index [index]. *)
Fixpoint scanLines (index : nat) (lines : list string) (analysis : Analysis)
    : Analysis :=
  match lines with
  | [] => analysis
  | line :: rest =>
      scanLines (S index) rest
        (detectCodeQualityIssues line (index + 1) line analysis)
  end.

Definition newAnalysis : Analysis :=
  {| allocations := []; frees := []; leaks := []; warnings := [];
     timeline := [] |}.

Definition emptyAnalysis (message : string) : Analysis :=
  {| allocations := []; frees := []; leaks := [];
     warnings :=
       [{| w_type := "Analysis Error";
           w_line := 0;
           w_message :=
             "Analysis encountered an error: " ++ message
             ++ ". Some results may be incomplete.";
           w_lineText := EmptyString |}];
     timeline := [] |}.

(** A value that a caller can pass as [code]. *)
Inductive JsInput : Type :=
| InString (t : string)
| InNumber (z : Z)
| InBool (b : bool)
| InNull
| InUndefined
| InObject.

(** [!code || typeof code !== 'string'] *)
Definition invalidInput (code : JsInput) : bool :=
  match code with
  | InString t => Js.is_empty t
  | _ => true
  end.

Definition invalidInputMessage : string :=
  "Invalid code input: code must be a non-empty string".

(** [analyze(code)]: what the call does, and the instance after it. *)
Definition analyze (this : Analyzer) (code : JsInput)
    : Outcome Analysis * Analyzer :=
  match code with
  | InString text =>
      if Js.is_empty text then (Throws invalidInputMessage, this)
      else
        match this_astParser this text with
        | Throws message => (Returns (emptyAnalysis message), this)
        | Returns ast =>
            let astBody := body ast in
            let '(this1, analysis1) :=
              processNodes text (this, newAnalysis) astBody in
            let analysis2 := scanLines 0 (Js.split_lines text) analysis1 in
            (Returns (findLeaks this1 analysis2), this1)
        end
  | _ => (Throws invalidInputMessage, this)
  end.

End Tracker.

Section Instances.

Variable acorn : option (string -> option (list ASTNode)).
Variable now : nat -> N.

(** [new MemoryAnalyzer(language)]: [new ASTParser(language)] only stores
    the language, and its [parse] never throws. *)
Definition newMemoryAnalyzer (language : string) : Analyzer :=
  {| this_language := language;
     this_astParser := fun code => Returns (ASTParser.parse acorn language code);
     this_allocations := JsMap.empty;
     this_timeline := [];
     this_currentMemory := 0%Z;
     this_clock := 0 |}.

(** The entry point [analyze(sourceText, language)] of the interface: one
    fresh instance for one call. *)
Definition analyzeSource (sourceText : JsInput) (language : string)
    : Outcome Analysis * Analyzer :=
  analyze now (newMemoryAnalyzer language) sourceText.

End Instances.

End MemoryAnalyzer.

(* ===================================================================== *)
(** ** Notions used to state the properties *)
(* ===================================================================== *)

Import ASTParser MemoryAnalyzer.

(** Every per-variable stack of the instance holds at most one record. *)
Definition StackInv (this : Analyzer) : Prop :=
  Forall (fun entry : string * list Alloc => length (snd entry) <= 1)
    (this_allocations this).

(** The input is the empty string or not a string at all. *)
Definition EmptyOrNotString (code : JsInput) : Prop :=
  code = InString EmptyString \/ forall t, code <> InString t.

(** An analyzer whose parser always fails. *)
Definition failingAnalyzer (message : string) : Analyzer :=
  {| this_language := "c";
     this_astParser := fun _ => Throws message;
     this_allocations := JsMap.empty;
     this_timeline := [];
     this_currentMemory := 0%Z;
     this_clock := 0 |}.

(** A clock for the concrete runs. *)
Definition clock0 (k : nat) : N := N.of_nat (1000 + k).

Definition LFs : string := String Js.LF EmptyString.

Definition reassignTwoLines : string :=
  "int *p = malloc(10);" ++ LFs ++ "p = malloc(20);".
Definition doubleFreeOneLine : string :=
  "int *p = malloc(4); free(p); free(p);".
Definition doubleFreeThreeLines : string :=
  "int *p = malloc(4);" ++ LFs ++ "free(p);" ++ LFs ++ "free(p);".
Definition cleanPair : string := "int *p = malloc(4); free(p);".
Definition sizeofSource : string := "int *a = malloc(10 * sizeof(int));".
Definition plainSource : string := "char *b = malloc(10);".
Definition arrayNewSource : string := "int *arr = new int[10];".
Definition scalarNewSource : string := "int *p = new int(5);".

(** The languages that [parse] and [calculateSizeFromAST] know. *)
Definition recognized (language : string) : bool :=
  existsb (String.eqb language)
    ["c"; "cpp"; "javascript"; "python"; "java"; "rust"; "go"].

Definition mapOutcome {A B : Type} (f : A -> B) (o : Outcome A) : Outcome B :=
  match o with
  | Returns a => Returns (f a)
  | Throws message => Throws message
  end.

(** A record without its allocation id. *)
Definition eraseAllocId (a : Alloc) : Alloc :=
  {| a_var := a_var a; a_line := a_line a; a_function := a_function a;
     a_size := a_size a; a_lineText := a_lineText a; a_inLoop := a_inLoop a;
     a_inFunction := a_inFunction a; a_functionName := a_functionName a;
     a_allocId := EmptyString; a_language := a_language a |}.

Definition eraseFreeEntry (f : FreeEntry) : FreeEntry :=
  {| fe_var := fe_var f; fe_line := fe_line f; fe_lineText := fe_lineText f;
     fe_freedAllocId := EmptyString |}.

(** A result modulo the allocation ids. *)
Definition eraseIds (r : Analysis) : Analysis :=
  {| allocations := map eraseAllocId (allocations r);
     frees := map eraseFreeEntry (frees r);
     leaks := leaks r; warnings := warnings r; timeline := timeline r |}.

(** A record without its id, its estimated size and its language tag. *)
Definition eraseAlloc (a : Alloc) : Alloc :=
  {| a_var := a_var a; a_line := a_line a; a_function := a_function a;
     a_size := 0%Z; a_lineText := a_lineText a; a_inLoop := a_inLoop a;
     a_inFunction := a_inFunction a; a_functionName := a_functionName a;
     a_allocId := EmptyString; a_language := EmptyString |}.

Definition eraseLeak (l : Leak) : Leak :=
  {| l_var := l_var l; l_line := l_line l; l_function := l_function l;
     l_size := 0%Z; l_inLoop := l_inLoop l; l_fix := l_fix l |}.

(** A result modulo the allocation ids, the estimated sizes and the
    language tags. *)
Definition eraseResult (r : Analysis) : Analysis :=
  {| allocations := map eraseAlloc (allocations r);
     frees := map eraseFreeEntry (frees r);
     leaks := map eraseLeak (leaks r);
     warnings := warnings r; timeline := timeline r |}.

Definition mapValues {V W : Type} (f : V -> W) (m : JsMap.t V) : JsMap.t W :=
  map (fun e => (fst e, f (snd e))) m.

(** Two tracker states that agree modulo ids, sizes and language tags. *)
Definition Sim (st1 st2 : TState) : Prop :=
  mapValues (map eraseAlloc) (this_allocations (fst st1))
    = mapValues (map eraseAlloc) (this_allocations (fst st2))
  /\ eraseResult (snd st1) = eraseResult (snd st2).

Definition twoCopies : string := "strcpy(a, b); strcpy(c, d);".

(** The number of places of [t] at which [sub] starts. *)
Fixpoint occurrences (sub t : string) : nat :=
  (if prefix sub t then 1 else 0)
  + match t with
    | EmptyString => 0
    | String _ t' => occurrences sub t'
    end.

(** The line calls strcpy and does not mention strncpy. *)
Definition unsafeLine (line : string) : bool :=
  Js.includes line "strcpy(" && negb (Js.includes line "strncpy").

Definition isUnsafeFunction (x : Warning) : bool :=
  String.eqb (w_type x) "Unsafe Function".

(** The number of "Unsafe Function" warnings of a sequence. *)
Definition countUnsafe (xs : list Warning) : nat :=
  length (filter isUnsafeFunction xs).

(** A warning of type "Double Free" or "Potential Double Free". *)
Definition isDoubleFree (x : Warning) : bool :=
  String.eqb (w_type x) "Double Free"
  || String.eqb (w_type x) "Potential Double Free".

(** An allocation event as the estimator receives it. *)
Definition allocEvent (fn args : string) : ASTNode :=
  {| n_type := Allocation; n_var := "a"; n_line := 1; n_function := fn;
     n_args := ArgsText args; n_functionName := None; n_inLoop := false;
     n_originalLine := None |}.

(** A deallocation as [handleFree] receives it. *)
Definition freeOf (var : string) : Free :=
  {| f_var := var; f_line := 1; f_lineText := "free(" ++ var ++ ");";
     f_language := "c"; f_isArray := false |}.

(* --------------------------------------------------------------------- *)
(** *** Notions for the tracker as a whole *)

Definition keys {V : Type} (m : JsMap.t V) : list string := map fst m.

(** The number of entries whose variable name satisfies [p]. *)
Definition countBy {A : Type} (var : A -> string) (p : string -> bool)
    (l : list A) : nat :=
  length (filter (fun x => p (var x)) l).

Definition sumZ (l : list Z) : Z := fold_right Z.add 0%Z l.

(** The records that are live in the map, in its order. *)
Definition liveRecords (m : JsMap.t (list Alloc)) : list Alloc :=
  concat (map snd m).

(** What the tracker operations read and write: the map of live
    allocations, the memory counter and the [analysis] object. *)
Definition View : Type := (JsMap.t (list Alloc) * Z * Analysis)%type.

Definition view (st : TState) : View :=
  (this_allocations (fst st), this_currentMemory (fst st), snd st).

(** The entry that [handleFree] pushes for the record it pops. *)
Definition freeEntryOf (free : Free) (freedAlloc : Alloc) : FreeEntry :=
  {| fe_var := f_var free; fe_line := f_line free;
     fe_lineText := f_lineText free;
     fe_freedAllocId := a_allocId freedAlloc |}.

(** The two warnings of [handleFree]. *)
Definition potentialDoubleFree (free : Free) : Warning :=
  {| w_type := "Potential Double Free";
     w_line := f_line free;
     w_message :=
       "free() called on " ++ f_var free
       ++ " which may not be allocated or already freed.";
     w_lineText := f_lineText free |}.

Definition doubleFree (free : Free) : Warning :=
  {| w_type := "Double Free";
     w_line := f_line free;
     w_message :=
       "free() called on " ++ f_var free ++ " which has already been freed.";
     w_lineText := f_lineText free |}.

(** The map holds each variable once, with exactly one record. *)
Definition Struct (m : JsMap.t (list Alloc)) : Prop :=
  NoDup (keys m) /\ Forall (fun e => exists x, snd e = [x]) m.

(** The moves of the tracker on a map that satisfies [Struct]: an event
    without a variable name is skipped; an allocation binds a new variable
    or replaces the record of a bound one, which is reported as a leak; a
    deallocation removes the entry of a bound variable or warns. *)
Inductive astep : View -> View -> Prop :=
| S_skip : forall v, astep v v
| S_new : forall m mem an alloc,
    Js.is_empty (a_var alloc) = false ->
    JsMap.get (a_var alloc) m = None ->
    astep (m, mem, an)
      (app m [(a_var alloc, [alloc])], (mem + a_size alloc)%Z,
       push_allocation an alloc)
| S_reassign : forall m1 m2 x mem an alloc,
    Js.is_empty (a_var alloc) = false ->
    astep (app m1 ((a_var alloc, [x]) :: m2), mem, an)
      (app m1 ((a_var alloc, [alloc]) :: m2),
       (mem - a_size x + a_size alloc)%Z,
       push_allocation (push_leak an (reassignLeak alloc x)) alloc)
| S_free : forall m1 m2 x mem an free,
    Js.is_empty (f_var free) = false ->
    astep (app m1 ((f_var free, [x]) :: m2), mem, an)
      (app m1 m2, (mem - a_size x)%Z, push_free an (freeEntryOf free x))
| S_unbound : forall m mem an free,
    Js.is_empty (f_var free) = false ->
    JsMap.get (f_var free) m = None ->
    astep (m, mem, an) (m, mem, push_warning an (potentialDoubleFree free)).

(** What holds of the tracker after any events from a fresh instance. *)
Record Good (v : View) : Prop := mkGood {
  good_struct : Struct (fst (fst v));
  good_keys :
    Forall (fun e => Js.is_empty (fst e) = false
                     /\ Forall (fun x => a_var x = fst e
                                         /\ In x (allocations (snd v)))
                          (snd e))
      (fst (fst v));
  good_memory : snd (fst v) = sumZ (map a_size (liveRecords (fst (fst v))));
  good_count : forall p,
    countBy a_var p (allocations (snd v))
    = countBy fe_var p (frees (snd v)) + countBy l_var p (leaks (snd v))
      + countBy fst p (fst (fst v));
  good_frees :
    Forall (fun f => exists a, In a (allocations (snd v))
                               /\ a_allocId a = fe_freedAllocId f
                               /\ a_var a = fe_var f)
      (frees (snd v));
  good_warnings :
    Forall (fun x => w_type x = "Potential Double Free") (warnings (snd v));
  good_leaks :
    Forall (fun l => exists a, In a (allocations (snd v))
                               /\ l_var l = a_var a /\ l_line l = a_line a
                               /\ l_size l = a_size a
                               /\ l_inLoop l = a_inLoop a)
      (leaks (snd v))
}.

(* --------------------------------------------------------------------- *)
(** *** Notions for the result as a whole *)

(** The warning that [detectCodeQualityIssues] pushes for a line. *)
Definition unsafeWarning (lineNum : nat) (line : string) : Warning :=
  {| w_type := "Unsafe Function";
     w_line := lineNum;
     w_message :=
       "strcpy() used without bounds checking. Consider using strncpy() or strcpy_s().";
     w_lineText := Js.trim line |}.

(** The warnings of the lines that call strcpy, from line index [index]. *)
Fixpoint qualityWarnings (index : nat) (lines : list string) : list Warning :=
  match lines with
  | [] => []
  | line :: rest =>
      app (if unsafeLine line then [unsafeWarning (index + 1) line] else [])
          (qualityWarnings (S index) rest)
  end.

(** The number of "Unsafe Function" warnings that carry the line number
    [lineNum]. *)
Definition unsafeAt (lineNum : nat) (xs : list Warning) : nat :=
  length (filter (fun x => isUnsafeFunction x && (w_line x =? lineNum)) xs).

(** The line of index [i] exists and calls strcpy without strncpy. *)
Definition nthUnsafe (lines : list string) (i : nat) : bool :=
  match nth_error lines i with
  | Some line => unsafeLine line
  | None => false
  end.

(** The same for the line of number [lineNum], the first line being
    line 1. *)
Definition unsafeLineAt (lines : list string) (lineNum : nat) : bool :=
  match lineNum with
  | 0 => false
  | S i => nthUnsafe lines i
  end.

(** An Allocation event that carries a variable name. *)
Definition isNamedAllocation (node : ASTNode) : bool :=
  match n_type node with
  | Allocation => negb (Js.is_empty (n_var node))
  | Deallocation => false
  end.

(** The [statistics] object that [exportAnalysis] and [shareAnalysis]
    build from a result. *)
Record Statistics : Type := mkStatistics {
  totalAllocations : nat;
  totalFrees : nat;
  memoryLeaks : nat;
  leakedBytes : Z;
  warningCount : nat
}.

Definition statisticsOf (analysis : Analysis) : Statistics :=
  {| totalAllocations := length (allocations analysis);
     totalFrees := length (frees analysis);
     memoryLeaks := length (leaks analysis);
     leakedBytes :=
       fold_left (fun sum leak => (sum + l_size leak)%Z) (leaks analysis) 0%Z;
     warningCount := length (warnings analysis) |}.



Definition isAllocationNode (node : ASTNode) : bool :=
  match n_type node with Allocation => true | Deallocation => false end.

Definition isDeallocationNode (node : ASTNode) : bool :=
  match n_type node with Allocation => false | Deallocation => true end.

(** The line that [parseC] gives to the events of the statement that ends
    on the line of index [index]. *)
Definition statementLine (st : PState) (index : nat) : nat :=
  if inStatement st then nat_or (statementStartLine st) (index + 1)
  else index + 1.

(** What [parseC] keeps between lines, after [index] lines: every event
    has a line among the lines read, the lines of the events never
    decrease, those of the allocations and those of the deallocations
    increase, and an open statement starts after every event. *)
Record ScanInv (index : nat) (st : PState) : Prop := mkScanInv {
  scan_bounds : Forall (fun n => 1 <= n_line n <= index) (nodes st);
  scan_open :
    inStatement st = true ->
    1 <= statementStartLine st <= index
    /\ Forall (fun n => n_line n < statementStartLine st) (nodes st);
  scan_sorted : StronglySorted le (map n_line (nodes st));
  scan_allocs :
    StronglySorted lt (map n_line (filter isAllocationNode (nodes st)));
  scan_deallocs :
    StronglySorted lt (map n_line (filter isDeallocationNode (nodes st)))
}.

(* --------------------------------------------------------------------- *)
(** *** What a pattern can match *)

(** [matches r st st']: the pattern [r] can take the matcher from [st] to
    [st']. The relation has no priorities: it holds of every way to match,
    the one that [rmatch] finds among them. *)
Inductive matches : Regex.regex -> Regex.mstate -> Regex.mstate -> Prop :=
| M_Eps : forall st, matches Regex.Eps st st
| M_Chr : forall c prev rest caps,
    matches (Regex.Chr c) (Regex.MState prev (String c rest) caps)
      (Regex.MState (Some c) rest caps)
| M_Cls : forall (p : ascii -> bool) c prev rest caps,
    p c = true ->
    matches (Regex.Cls p) (Regex.MState prev (String c rest) caps)
      (Regex.MState (Some c) rest caps)
| M_Seq : forall r1 r2 st st1 st2,
    matches r1 st st1 -> matches r2 st1 st2 ->
    matches (Regex.Seq r1 r2) st st2
| M_AltL : forall r1 r2 st st',
    matches r1 st st' -> matches (Regex.Alt r1 r2) st st'
| M_AltR : forall r1 r2 st st',
    matches r2 st st' -> matches (Regex.Alt r1 r2) st st'
| M_StarNil : forall g r st, matches (Regex.Star g r) st st
| M_StarCons : forall g r st st1 st2,
    matches r st st1 -> matches (Regex.Star g r) st1 st2 ->
    matches (Regex.Star g r) st st2
| M_Grp : forall i r st st',
    matches r st st' ->
    matches (Regex.Grp i r) st
      (Regex.MState (Regex.ms_prev st') (Regex.ms_rest st')
         ((i, Regex.consumed (Regex.ms_rest st) (Regex.ms_rest st'))
            :: Regex.ms_caps st'))
| M_WordB : forall st,
    xorb (Regex.opt_word (Regex.ms_prev st))
         (Regex.opt_word (Regex.head (Regex.ms_rest st))) = true ->
    matches Regex.WordB st st
| M_EndLine : forall st,
    match Regex.ms_rest st with
    | EmptyString => True
    | String c _ => Js.is_line_terminator c = true
    end ->
    matches Regex.EndLine st st.

(** Every character of the text satisfies [p]. *)
Fixpoint allChars (p : ascii -> bool) (t : string) : Prop :=
  match t with
  | EmptyString => True
  | String c t' => p c = true /\ allChars p t'
  end.

(** A non-empty text of characters of the class [p]. *)
Definition wordOf (p : ascii -> bool) (t : string) : Prop :=
  t <> EmptyString /\ allChars p t.

(** The group [i] does not occur in the pattern. *)
Fixpoint silent (i : nat) (r : Regex.regex) : bool :=
  match r with
  | Regex.Seq r1 r2 | Regex.Alt r1 r2 => silent i r1 && silent i r2
  | Regex.Star _ r' => silent i r'
  | Regex.Grp j r' => negb (i =? j) && silent i r'
  | _ => true
  end.

(** Every match of the pattern sets the group [i], to a text of [P]. *)
Fixpoint captures (i : nat) (P : string -> Prop) (r : Regex.regex) : Prop :=
  match r with
  | Regex.Grp j r' =>
      if i =? j then
        forall st st',
          matches r' st st' ->
          P (Regex.consumed (Regex.ms_rest st) (Regex.ms_rest st'))
      else captures i P r'
  | Regex.Seq r1 r2 =>
      captures i P r2 \/ (captures i P r1 /\ silent i r2 = true)
  | Regex.Alt r1 r2 => captures i P r1 /\ captures i P r2
  | _ => False
  end.

(** The names that the line scanner gives to the primitive of an event. *)
Definition knownPrimitive (node : ASTNode) : Prop :=
  match n_type node with
  | Allocation =>
      In (n_function node) ["malloc"; "calloc"; "realloc"; "new"; "new[]"]
  | Deallocation => In (n_function node) ["free"; "delete[]"; "delete"]
  end.

Definition isAllocFn (t : string) : Prop :=
  t = "malloc" \/ t = "calloc" \/ t = "realloc".

(** [Subseq t u]: [t] is [u] with some characters deleted. *)
Inductive Subseq : string -> string -> Prop :=
| Sub_nil : Subseq EmptyString EmptyString
| Sub_keep : forall c t u, Subseq t u -> Subseq (String c t) (String c u)
| Sub_drop : forall c t u, Subseq t u -> Subseq t (String c u).

Definition notSlash (c : ascii) : bool := negb (Ascii.eqb c "/").

(** Two tracker states that agree modulo the allocation ids. *)
Definition SimId (st1 st2 : TState) : Prop :=
  mapValues (map eraseAllocId) (this_allocations (fst st1))
    = mapValues (map eraseAllocId) (this_allocations (fst st2))
  /\ eraseIds (snd st1) = eraseIds (snd st2)
  /\ this_language (fst st1) = this_language (fst st2).

(** The tracker after the events of a source, from a fresh instance, and
    the result that [analyze] returns then. *)
Definition finalState acorn (now : nat -> N) (language text : string)
    : TState :=
  processNodes now text (newMemoryAnalyzer acorn language, newAnalysis)
    (body (parse acorn language text)).

Definition resultOf acorn (now : nat -> N) (language text : string)
    : Analysis :=
  findLeaks (fst (finalState acorn now language text))
    (scanLines 0 (Js.split_lines text)
       (snd (finalState acorn now language text))).


(** A character other than the closing parenthesis. *)
Definition notClose (c : ascii) : bool := negb (Ascii.eqb c ")").

(** Every match of the pattern consumes the character [c]. *)
Fixpoint needs (c : ascii) (r : Regex.regex) : bool :=
  match r with
  | Regex.Chr c' => Ascii.eqb c c'
  | Regex.Seq r1 r2 => needs c r1 || needs c r2
  | Regex.Grp _ r' => needs c r'
  | _ => false
  end.

(** An Allocation event of the malloc family. *)
Definition isMallocFamily (node : ASTNode) : Prop :=
  In (n_function node) ["malloc"; "calloc"; "realloc"].

(* ===================================================================== *)
(** ** Properties *)
(* ===================================================================== *)

Ltac break_match :=
  match goal with
  | |- context [match ?x with _ => _ end] =>
      lazymatch x with
      | context [match _ with _ => _ end] => fail
      | _ => destruct x eqn:?
      end
  end.

(** Replaces the result of a run on a concrete source by its value. *)
Ltac compute_run :=
  match goal with
  | |- context [fst (analyzeSource ?a ?n ?i ?l)] =>
      let v := eval vm_compute in (fst (analyzeSource a n i l)) in
      let E := fresh "E" in
      assert (E : fst (analyzeSource a n i l) = v)
        by (vm_compute; reflexivity);
      rewrite E; clear E
  end.

Ltac unfold_processNode :=
  lazy beta iota zeta delta [processNode processASTAllocation].

Lemma is_empty_true (t : string) : Js.is_empty t = true <-> t = EmptyString.
Proof. destruct t; simpl; split; congruence. Qed.

(* --------------------------------------------------------------------- *)
(** *** The input check and the top-level handler of [analyze] *)

(** C1. [analyze] throws the input-validation error exactly when the input
    is the empty string or not a string, and returns a result otherwise;
    a parser that throws gives the result whose only warning is the
    'Analysis Error' one, with the other four sequences empty; the parser
    of the repository makes every non-empty string return. *)
Theorem C1_analyze_returns_or_invalid_input :
  forall (now : nat -> N) (this : Analyzer) (code : JsInput),
    (fst (analyze now this code) = Throws invalidInputMessage
       <-> EmptyOrNotString code)
    /\ ((exists r, fst (analyze now this code) = Returns r)
        \/ fst (analyze now this code) = Throws invalidInputMessage)
    /\ (forall text message,
          code = InString text -> text <> EmptyString ->
          this_astParser this text = Throws message ->
          exists w,
            fst (analyze now this code)
              = Returns {| allocations := []; frees := []; leaks := [];
                           warnings := [w]; timeline := [] |}
            /\ w_type w = "Analysis Error")
    /\ (forall acorn language text,
          text <> EmptyString ->
          exists r,
            fst (analyzeSource acorn now (InString text) language)
              = Returns r).
Proof.
  intros now this code. repeat split.
  - (* throws -> invalid *)
    unfold EmptyOrNotString. destruct code as [t| | | | |]; simpl;
      try (intros _; right; intros t'; discriminate).
    destruct (Js.is_empty t) eqn:E.
    + intros _. left. apply is_empty_true in E. now subst.
    + destruct (this_astParser this t) as [ast|msg]; simpl.
      * destruct (processNodes now t (this, newAnalysis) (body ast)).
        simpl. discriminate.
      * discriminate.
  - (* invalid -> throws *)
    intros [-> | H]; [reflexivity|].
    destruct code as [t| | | | |]; try reflexivity.
    exfalso. now apply (H t).
  - destruct code as [t| | | | |]; simpl; try (now right).
    destruct (Js.is_empty t); [now right|].
    left. destruct (this_astParser this t) as [ast|msg].
    + destruct (processNodes now t (this, newAnalysis) (body ast)).
      eexists. reflexivity.
    + eexists. reflexivity.
  - intros text message -> Hne Hthrow. simpl.
    destruct (Js.is_empty text) eqn:E.
    + apply is_empty_true in E. contradiction.
    + rewrite Hthrow. eexists. split; reflexivity.
  - intros acorn language text Hne. unfold analyzeSource. simpl.
    destruct (Js.is_empty text) eqn:E.
    + apply is_empty_true in E. contradiction.
    + destruct (processNodes _ _ _ _). eexists. reflexivity.
Qed.

Lemma C1_witness :
  exists w,
    fst (analyze clock0 (failingAnalyzer "boom") (InString "int x;"))
      = Returns {| allocations := []; frees := []; leaks := [];
                   warnings := [w]; timeline := [] |}
    /\ w_type w = "Analysis Error".
Proof.
  refine (proj1 (proj2 (proj2
            (C1_analyze_returns_or_invalid_input clock0
               (failingAnalyzer "boom") (InString "int x;"))))
            "int x;" "boom" _ _ _).
  - reflexivity.
  - discriminate.
  - reflexivity.
Defined.

(* --------------------------------------------------------------------- *)
(** *** The map of live allocations *)

Section MapFacts.
Context {V : Type}.
Implicit Types (m : JsMap.t V) (k : string) (v : V).

Lemma get_set_same m k v : JsMap.get k (JsMap.set k v m) = Some v.
Proof.
  induction m as [|[k' v'] m IH]; simpl.
  - now rewrite String.eqb_refl.
  - destruct (String.eqb k k') eqn:E; simpl.
    + now rewrite String.eqb_refl.
    + now rewrite E.
Qed.

Lemma set_set m k v1 v2 :
  JsMap.set k v2 (JsMap.set k v1 m) = JsMap.set k v2 m.
Proof.
  induction m as [|[k' v'] m IH]; simpl.
  - now rewrite String.eqb_refl.
  - destruct (String.eqb k k') eqn:E; simpl.
    + now rewrite String.eqb_refl.
    + rewrite E. now f_equal.
Qed.

Lemma Forall_set (Q : V -> Prop) m k v :
  Forall (fun e => Q (snd e)) m -> Q v ->
  Forall (fun e => Q (snd e)) (JsMap.set k v m).
Proof.
  intros Hm Hv. induction Hm as [|[k' v'] m Hh Ht IH]; simpl.
  - now constructor.
  - destruct (String.eqb k k'); constructor; auto.
Qed.

Lemma Forall_delete (Q : V -> Prop) m k :
  Forall (fun e => Q (snd e)) m ->
  Forall (fun e => Q (snd e)) (JsMap.delete k m).
Proof.
  intros Hm. induction Hm as [|[k' v'] m Hh Ht IH]; simpl.
  - constructor.
  - destruct (String.eqb k k'); auto.
Qed.

Lemma Forall_get (Q : V -> Prop) m k v :
  Forall (fun e => Q (snd e)) m -> JsMap.get k m = Some v -> Q v.
Proof.
  intros Hm. induction Hm as [|[k' v'] m Hh Ht IH]; simpl.
  - discriminate.
  - destruct (String.eqb k k'); [|assumption].
    intros [= <-]. exact Hh.
Qed.

End MapFacts.

Lemma last_opt_None {A : Type} (l : list A) : last_opt l = None -> l = [].
Proof.
  unfold last_opt. destruct (rev l) eqn:E; [|discriminate].
  intros _. apply (f_equal (@rev A)) in E. now rewrite rev_involutive in E.
Qed.

Lemma last_opt_Some {A : Type} (l : list A) (x : A) :
  last_opt l = Some x -> l = app (removelast l) [x].
Proof.
  unfold last_opt. destruct (rev l) as [|y r] eqn:E; [discriminate|].
  intros [= ->]. apply (f_equal (@rev A)) in E.
  rewrite rev_involutive in E. simpl in E. subst l.
  now rewrite removelast_last.
Qed.

Lemma length_removelast_le1 {A : Type} (l : list A) :
  length l <= 1 -> removelast l = [].
Proof. destruct l as [|a [|b l]]; simpl; intros; [reflexivity..|lia]. Qed.

(** What [handleAllocation] leaves in the map: the stack of the variable
    without its last record, followed by the new record. *)
Lemma handleAllocation_allocations alloc this an :
  Js.is_empty (a_var alloc) = false ->
  this_allocations (fst (handleAllocation alloc (this, an)))
  = JsMap.set (a_var alloc)
      (app (match JsMap.get (a_var alloc) (this_allocations this) with
            | Some l => removelast l
            | None => []
            end) [alloc])
      (this_allocations this).
Proof.
  intros Hvar. unfold handleAllocation. rewrite Hvar.
  destruct (JsMap.get (a_var alloc) (this_allocations this)) as [l|] eqn:G.
  - destruct (last_opt l) as [x|] eqn:L; simpl.
    + unfold JsMap.has. rewrite !get_set_same. simpl.
      rewrite get_set_same. simpl. now rewrite set_set.
    + apply last_opt_None in L. subst l.
      unfold JsMap.has. rewrite G. simpl. now rewrite G.
  - simpl. unfold JsMap.has. rewrite G. simpl. rewrite get_set_same.
    simpl. now rewrite set_set.
Qed.

Lemma handleAllocation_inv alloc this an :
  StackInv this -> StackInv (fst (handleAllocation alloc (this, an))).
Proof.
  intros Hinv. destruct (Js.is_empty (a_var alloc)) eqn:Hvar.
  - unfold handleAllocation. now rewrite Hvar.
  - unfold StackInv. rewrite handleAllocation_allocations by assumption.
    apply (Forall_set (fun l => length l <= 1)); [exact Hinv|].
    destruct (JsMap.get (a_var alloc) (this_allocations this)) as [l|] eqn:G.
    + rewrite length_removelast_le1; [simpl; lia|].
      exact (Forall_get (fun l => length l <= 1) _ _ _ Hinv G).
    + simpl. lia.
Qed.

Lemma handleFree_inv free this an :
  StackInv this -> StackInv (fst (handleFree free (this, an))).
Proof.
  intros Hinv. unfold handleFree.
  destruct (Js.is_empty (f_var free)); [assumption|].
  destruct (JsMap.get (f_var free) (this_allocations this)) as [l|] eqn:G;
    [|assumption].
  destruct (last_opt l) as [x|]; [|assumption].
  assert (Hl : removelast l = []).
  { apply length_removelast_le1.
    exact (Forall_get (fun l => length l <= 1) _ _ _ Hinv G). }
  rewrite Hl. simpl. unfold StackInv. simpl.
  apply (Forall_delete (fun l => length l <= 1)).
  apply (Forall_set (fun l => length l <= 1)); [assumption|simpl; lia].
Qed.

Lemma processNode_inv now code st node :
  StackInv (fst st) -> StackInv (fst (processNode now code st node)).
Proof.
  destruct st as [this an]. intros Hinv. unfold_processNode.
  destruct (n_type node).
  - match goal with
    | |- context [handleAllocation ?a (?t, ?s)] =>
        pose proof (handleAllocation_inv a t s Hinv) as H;
        destruct (handleAllocation a (t, s))
    end. exact H.
  - match goal with
    | |- context [handleFree ?f (?t, ?s)] =>
        pose proof (handleFree_inv f t s Hinv) as H;
        destruct (handleFree f (t, s))
    end. exact H.
Qed.

Lemma processNodes_inv now code nodes st :
  StackInv (fst st) -> StackInv (fst (processNodes now code st nodes)).
Proof.
  revert st. induction nodes as [|n nodes IH]; intros st Hinv; simpl.
  - exact Hinv.
  - apply IH. now apply processNode_inv.
Qed.

(** C10. From a state in which every stack holds at most one record, no
    Allocation or Deallocation event, and no sequence of events, leads to a
    state with a longer stack; an Allocation for a variable with a live
    record evicts it, reports it as a reassignment leak and leaves the new
    record alone on the stack. A fresh instance is such a state, and so is
    the instance after any call of [analyze] on it. *)
Theorem C10_stacks_hold_at_most_one_record :
  (forall acorn language, StackInv (newMemoryAnalyzer acorn language))
  /\ (forall (now : nat -> N) (code : string) (this : Analyzer)
             (an : Analysis),
        StackInv this ->
        (forall alloc, StackInv (fst (handleAllocation alloc (this, an))))
        /\ (forall free, StackInv (fst (handleFree free (this, an))))
        /\ (forall nodes,
              StackInv (fst (processNodes now code (this, an) nodes)))
        /\ (forall alloc old,
              Js.is_empty (a_var alloc) = false ->
              JsMap.get (a_var alloc) (this_allocations this) = Some [old] ->
              JsMap.get (a_var alloc)
                (this_allocations (fst (handleAllocation alloc (this, an))))
                = Some [alloc]
              /\ leaks (snd (handleAllocation alloc (this, an)))
                 = app (leaks an) [reassignLeak alloc old]))
  /\ (forall acorn now input language,
        StackInv (snd (analyzeSource acorn now input language))).
Proof.
  split; [|split].
  - intros. constructor.
  - intros now code this an Hinv. split; [|split; [|split]].
    + intros alloc. now apply handleAllocation_inv.
    + intros free. now apply handleFree_inv.
    + intros ns. now apply (processNodes_inv now code ns (this, an)).
    + intros alloc old Hvar Hget. split.
      * rewrite handleAllocation_allocations by assumption.
        rewrite Hget. simpl. apply get_set_same.
      * unfold handleAllocation. rewrite Hvar, Hget. reflexivity.
  - intros acorn now input language. unfold analyzeSource, analyze.
    assert (H0 : StackInv (newMemoryAnalyzer acorn language))
      by constructor.
    destruct input as [t| | | | |]; try exact H0.
    destruct (Js.is_empty t); [exact H0|].
    cbn [this_astParser newMemoryAnalyzer].
    pose proof (processNodes_inv now t
                  (body (parse acorn language t))
                  (newMemoryAnalyzer acorn language, newAnalysis) H0) as H.
    destruct (processNodes _ _ _ _) as [this1 an1]. exact H.
Qed.

Lemma C10_witness :
  StackInv
    (fst (processNodes clock0 "int *p = malloc(4);"
            (newMemoryAnalyzer None "c", newAnalysis)
            (body (parse None "c" "int *p = malloc(4);")))).
Proof.
  refine (proj1 (proj2 (proj2
            (proj1 (proj2 C10_stacks_hold_at_most_one_record)
               clock0 "int *p = malloc(4);" (newMemoryAnalyzer None "c")
               newAnalysis _))) _).
  constructor.
Defined.

(* --------------------------------------------------------------------- *)
(** *** What the tracker operations leave untouched *)

Lemma handleAllocation_frame alloc this an :
  let st := handleAllocation alloc (this, an) in
  this_timeline (fst st) = this_timeline this
  /\ this_clock (fst st) = this_clock this
  /\ this_language (fst st) = this_language this
  /\ timeline (snd st) = timeline an
  /\ warnings (snd st) = warnings an
  /\ frees (snd st) = frees an.
Proof.
  unfold handleAllocation.
  repeat break_match; simpl; repeat split; congruence.
Qed.

Lemma handleFree_frame free this an :
  let st := handleFree free (this, an) in
  this_timeline (fst st) = this_timeline this
  /\ this_clock (fst st) = this_clock this
  /\ this_language (fst st) = this_language this
  /\ timeline (snd st) = timeline an
  /\ allocations (snd st) = allocations an
  /\ leaks (snd st) = leaks an.
Proof.
  unfold handleFree.
  repeat break_match; simpl; repeat split; congruence.
Qed.

Lemma processNode_timeline now code st node :
  length (this_timeline (fst (processNode now code st node)))
    = S (length (this_timeline (fst st)))
  /\ timeline (snd (processNode now code st node)) = timeline (snd st).
Proof.
  destruct st as [this an]. unfold_processNode.
  destruct (n_type node).
  - match goal with
    | |- context [handleAllocation ?a (?t, ?s)] =>
        pose proof (handleAllocation_frame a t s) as H;
        destruct (handleAllocation a (t, s))
    end.
    simpl in *. destruct H as (Ht & _ & _ & Han & _).
    rewrite length_app, Ht. simpl. split; [lia|exact Han].
  - match goal with
    | |- context [handleFree ?f (?t, ?s)] =>
        pose proof (handleFree_frame f t s) as H;
        destruct (handleFree f (t, s))
    end.
    simpl in *. destruct H as (Ht & _ & _ & Han & _).
    rewrite length_app, Ht. simpl. split; [lia|exact Han].
Qed.

Lemma processNodes_timeline now code ns st :
  length (this_timeline (fst (processNodes now code st ns)))
    = length (this_timeline (fst st)) + length ns
  /\ timeline (snd (processNodes now code st ns)) = timeline (snd st).
Proof.
  revert st. induction ns as [|n ns IH]; intros st; simpl.
  - split; [lia|reflexivity].
  - destruct (IH (processNode now code st n)) as [IH1 IH2].
    destruct (processNode_timeline now code st n) as [H1 H2].
    unfold processNodes in *. rewrite IH1, IH2, H1, H2. split; [lia|reflexivity].
Qed.

Lemma detectCodeQualityIssues_frame line lineNum originalLine an :
  let an' := detectCodeQualityIssues line lineNum originalLine an in
  allocations an' = allocations an /\ frees an' = frees an
  /\ leaks an' = leaks an /\ timeline an' = timeline an.
Proof.
  unfold detectCodeQualityIssues. repeat break_match; simpl; auto.
Qed.

Lemma scanLines_frame lines index an :
  let an' := scanLines index lines an in
  allocations an' = allocations an /\ frees an' = frees an
  /\ leaks an' = leaks an /\ timeline an' = timeline an.
Proof.
  revert index an. induction lines as [|l lines IH]; intros index an; simpl.
  - auto.
  - destruct (IH (S index) (detectCodeQualityIssues l (index + 1) l an))
      as (A & B & C & D).
    destruct (detectCodeQualityIssues_frame l (index + 1) l an)
      as (A' & B' & C' & D').
    simpl in *. repeat split; congruence.
Qed.

(* --------------------------------------------------------------------- *)
(** *** The timeline *)

(** C2. For every non-empty source text the instance holds one timeline
    sample per extracted event when [analyze] is done, yet the [timeline]
    of the returned result is the empty sequence: the samples are never
    copied. On "int *p = malloc(4);" one event is extracted. *)
Theorem C2_result_timeline_stays_empty :
  forall acorn (now : nat -> N) (language text : string),
    Js.is_empty text = false ->
    exists r,
      fst (analyzeSource acorn now (InString text) language) = Returns r
      /\ timeline r = []
      /\ length (this_timeline
                   (snd (analyzeSource acorn now (InString text) language)))
         = length (body (parse acorn language text))
      /\ length (body (parse acorn "c" "int *p = malloc(4);")) = 1.
Proof.
  intros acorn now language text Hne.
  unfold analyzeSource, analyze. rewrite Hne.
  cbn [this_astParser newMemoryAnalyzer].
  destruct (processNodes_timeline now text (body (parse acorn language text))
              (newMemoryAnalyzer acorn language, newAnalysis)) as [H1 H2].
  destruct (processNodes _ _ _ _) as [this1 an1].
  eexists. split; [reflexivity|]. simpl in *.
  destruct (scanLines_frame (Js.split_lines text) 0 an1) as (_ & _ & _ & D).
  simpl in D. rewrite D, H2. repeat split.
  - exact H1.
Qed.

Lemma C2_witness :
  exists r,
    fst (analyzeSource None clock0 (InString "int *p = malloc(4);") "c")
      = Returns r
    /\ timeline r = []
    /\ length (this_timeline
                 (snd (analyzeSource None clock0
                         (InString "int *p = malloc(4);") "c")))
       = length (body (parse None "c" "int *p = malloc(4);"))
    /\ length (body (parse None "c" "int *p = malloc(4);")) = 1.
Proof.
  apply (C2_result_timeline_stays_empty None clock0 "c"
           "int *p = malloc(4);").
  reflexivity.
Defined.

(* --------------------------------------------------------------------- *)
(** *** Runs on concrete C sources *)



Lemma C4_counterexample :
  ~ (exists r,
       fst (analyzeSource None clock0 (InString doubleFreeOneLine) "c")
         = Returns r
       /\ length (filter isDoubleFree (warnings r)) = 1
       /\ length (frees r) = 1).
Proof.
  intros (r & H & Hw & _). revert H. compute_run.
  intros [= <-]. simpl in Hw. discriminate.
Qed.

(** C4. With the three statements on separate lines the result has exactly
    one warning, of type "Potential Double Free", and exactly one free
    entry; on one line only the first free of the line is extracted and
    there is no warning. A Deallocation for a variable with no entry in the
    map of live allocations appends one "Potential Double Free" warning and
    changes nothing else, in the instance or in the result. *)
Theorem C4_double_free_across_lines :
  forall acorn (now : nat -> N),
    (exists r x f,
       fst (analyzeSource acorn now (InString doubleFreeThreeLines) "c")
         = Returns r
       /\ warnings r = [x] /\ w_type x = "Potential Double Free"
       /\ frees r = [f])
    /\ (exists r f,
          fst (analyzeSource acorn now (InString doubleFreeOneLine) "c")
            = Returns r
          /\ warnings r = [] /\ frees r = [f])
    /\ (forall this an free,
          Js.is_empty (f_var free) = false ->
          JsMap.get (f_var free) (this_allocations this) = None ->
          exists x,
            handleFree free (this, an) = (this, push_warning an x)
            /\ w_type x = "Potential Double Free"
            /\ w_line x = f_line free).
Proof.
  intros acorn now. split; [|split].
  - compute_run. do 3 eexists. repeat split; reflexivity.
  - compute_run. do 2 eexists. repeat split; reflexivity.
  - intros this an free Hvar Hget. unfold handleFree.
    rewrite Hvar, Hget. eexists. repeat split; reflexivity.
Qed.

Lemma C4_witness :
  exists x,
    handleFree (freeOf "p") (newMemoryAnalyzer None "c", newAnalysis)
      = (newMemoryAnalyzer None "c", push_warning newAnalysis x)
    /\ w_type x = "Potential Double Free"
    /\ w_line x = f_line (freeOf "p").
Proof.
  refine (proj2 (proj2 (C4_double_free_across_lines None clock0))
            (newMemoryAnalyzer None "c") newAnalysis (freeOf "p") _ _).
  - reflexivity.
  - reflexivity.
Defined.

(** C5. On "int *p = malloc(4); free(p);" the result has one allocation,
    one free whose [freedAllocId] is the id of that allocation, no leak and
    no warning. *)
Theorem C5_clean_pairing :
  forall acorn (now : nat -> N),
    exists r a f,
      fst (analyzeSource acorn now (InString cleanPair) "c") = Returns r
      /\ allocations r = [a]
      /\ frees r = [f]
      /\ fe_freedAllocId f = a_allocId a
      /\ leaks r = []
      /\ warnings r = [].
Proof.
  intros acorn now. compute_run. do 3 eexists.
  split; [reflexivity|]. split; [reflexivity|]. split; [reflexivity|].
  repeat split; reflexivity.
Qed.

(* --------------------------------------------------------------------- *)
(** *** Size estimation *)

(** C6. The extractor cuts the argument text at the first closing
    parenthesis, so the allocation of "int *a = malloc(10 * sizeof(int));"
    arrives with the arguments "10 * sizeof(int" and is estimated at 10;
    the estimator gives 40 on the whole text "10 * sizeof(int)". The
    allocation of "char *b = malloc(10);" is estimated at 10. *)
Theorem C6_sizeof_arguments_are_cut :
  forall acorn (now : nat -> N),
    (exists r a,
       fst (analyzeSource acorn now (InString sizeofSource) "c") = Returns r
       /\ allocations r = [a] /\ a_size a = 10%Z)
    /\ map n_args (body (parse acorn "c" sizeofSource))
       = [ArgsText "10 * sizeof(int"]
    /\ (forall node, calculateSizeFromAST "c" node "10 * sizeof(int)" = 40%Z)
    /\ (exists r b,
          fst (analyzeSource acorn now (InString plainSource) "c") = Returns r
          /\ allocations r = [b] /\ a_size b = 10%Z).
Proof.
  intros acorn now. split; [|split; [|split]].
  - compute_run. do 2 eexists. repeat split; reflexivity.
  - vm_compute. reflexivity.
  - intros node. unfold calculateSizeFromAST.
    replace (String.eqb "c" "c" || String.eqb "c" "cpp") with true
      by reflexivity.
    destruct (String.eqb (n_function node) "calloc");
      vm_compute; reflexivity.
  - compute_run. do 2 eexists. repeat split; reflexivity.
Qed.

(** C7. Under 'cpp' the first integer of the arguments is returned before
    the array-new and scalar-new cases are reached: an array-new event with
    arguments "10" is estimated at 10 and a scalar-new event with arguments
    "5" at 5; without a digit in the arguments an array-new event is
    estimated at 1 and a scalar-new event at 4. The allocation of
    "int *arr = new int[10];" is an array-new event with empty arguments,
    estimated at 1; the one of "int *p = new int(5);" is estimated at 5. *)
Theorem C7_new_sizes_under_cpp :
  forall acorn (now : nat -> N),
    calculateSizeFromAST "cpp" (allocEvent "new[]" "10") "10" = 10%Z
    /\ calculateSizeFromAST "cpp" (allocEvent "new" "5") "5" = 5%Z
    /\ calculateSizeFromAST "cpp" (allocEvent "new[]" "n") "n" = 1%Z
    /\ calculateSizeFromAST "cpp" (allocEvent "new" "") "" = 4%Z
    /\ (exists r a,
          fst (analyzeSource acorn now (InString arrayNewSource) "cpp")
            = Returns r
          /\ allocations r = [a]
          /\ a_function a = "new[]" /\ a_size a = 1%Z)
    /\ (exists r a,
          fst (analyzeSource acorn now (InString scalarNewSource) "cpp")
            = Returns r
          /\ allocations r = [a]
          /\ a_function a = "new" /\ a_size a = 5%Z).
Proof.
  intros acorn now. repeat (split; [vm_compute; reflexivity|]). split.
  - compute_run. do 2 eexists. repeat split; reflexivity.
  - compute_run. do 2 eexists. repeat split; reflexivity.
Qed.

(* --------------------------------------------------------------------- *)
(** *** The quality scan *)

Lemma countUnsafe_app xs ys :
  countUnsafe (app xs ys) = countUnsafe xs + countUnsafe ys.
Proof. unfold countUnsafe. now rewrite filter_app, length_app. Qed.

Lemma handleFree_countUnsafe free this an :
  countUnsafe (warnings (snd (handleFree free (this, an))))
  = countUnsafe (warnings an).
Proof.
  unfold handleFree.
  repeat break_match; cbn [snd warnings push_warning push_free];
    rewrite ?countUnsafe_app; try reflexivity;
    unfold countUnsafe at 2; cbn; lia.
Qed.

Lemma processNode_countUnsafe now code st node :
  countUnsafe (warnings (snd (processNode now code st node)))
  = countUnsafe (warnings (snd st)).
Proof.
  destruct st as [this an]. unfold_processNode.
  destruct (n_type node).
  - match goal with
    | |- context [handleAllocation ?a (?t, ?s)] =>
        pose proof (handleAllocation_frame a t s) as H;
        destruct (handleAllocation a (t, s))
    end.
    simpl in *. destruct H as (_ & _ & _ & _ & Hw & _). now rewrite Hw.
  - match goal with
    | |- context [handleFree ?f (?t, ?s)] =>
        pose proof (handleFree_countUnsafe f t s) as H;
        destruct (handleFree f (t, s))
    end.
    exact H.
Qed.

Lemma processNodes_countUnsafe now code ns st :
  countUnsafe (warnings (snd (processNodes now code st ns)))
  = countUnsafe (warnings (snd st)).
Proof.
  unfold processNodes. revert st.
  induction ns as [|n ns IH]; intros st; simpl.
  - reflexivity.
  - rewrite IH. apply processNode_countUnsafe.
Qed.

Lemma detect_countUnsafe line lineNum an :
  countUnsafe (warnings (detectCodeQualityIssues line lineNum line an))
  = countUnsafe (warnings an) + (if unsafeLine line then 1 else 0).
Proof.
  unfold detectCodeQualityIssues, unsafeLine.
  destruct (Js.is_empty line) eqn:E.
  - apply is_empty_true in E. subst line. simpl. lia.
  - destruct (Js.includes line "strcpy(" && negb (Js.includes line "strncpy")).
    + simpl. rewrite countUnsafe_app. reflexivity.
    + lia.
Qed.

Lemma scanLines_countUnsafe lines index an :
  countUnsafe (warnings (scanLines index lines an))
  = countUnsafe (warnings an) + length (filter unsafeLine lines).
Proof.
  revert index an. induction lines as [|l lines IH]; intros index an; simpl.
  - lia.
  - rewrite IH, detect_countUnsafe. destruct (unsafeLine l); simpl; lia.
Qed.

Lemma handleFree_unsafe free this an :
  filter isUnsafeFunction (warnings (snd (handleFree free (this, an))))
  = filter isUnsafeFunction (warnings an).
Proof.
  unfold handleFree.
  repeat break_match; cbn [snd warnings push_warning push_free];
    rewrite ?filter_app; try reflexivity; cbn; now rewrite app_nil_r.
Qed.

Lemma processNode_unsafe now code st node :
  filter isUnsafeFunction (warnings (snd (processNode now code st node)))
  = filter isUnsafeFunction (warnings (snd st)).
Proof.
  destruct st as [this an]. unfold_processNode.
  destruct (n_type node).
  - match goal with
    | |- context [handleAllocation ?a (?t, ?s)] =>
        pose proof (handleAllocation_frame a t s) as H;
        destruct (handleAllocation a (t, s))
    end.
    simpl in *. destruct H as (_ & _ & _ & _ & Hw & _). now rewrite Hw.
  - match goal with
    | |- context [handleFree ?f (?t, ?s)] =>
        pose proof (handleFree_unsafe f t s) as H;
        destruct (handleFree f (t, s))
    end.
    exact H.
Qed.

Lemma processNodes_unsafe now code ns st :
  filter isUnsafeFunction (warnings (snd (processNodes now code st ns)))
  = filter isUnsafeFunction (warnings (snd st)).
Proof.
  unfold processNodes. revert st.
  induction ns as [|n ns IH]; intros st; simpl.
  - reflexivity.
  - rewrite IH. apply processNode_unsafe.
Qed.

Lemma filter_all_false {A : Type} (f : A -> bool) (l : list A) :
  Forall (fun x => f x = false) l -> filter f l = [].
Proof.
  induction 1 as [|x l Hx _ IH]; [reflexivity|]. simpl. now rewrite Hx.
Qed.

Lemma filter_all_true {A : Type} (f : A -> bool) (l : list A) :
  Forall (fun x => f x = true) l -> filter f l = l.
Proof.
  induction 1 as [|x l Hx _ IH]; [reflexivity|]. simpl. now rewrite Hx, IH.
Qed.

Lemma scanLines_warnings lines index an :
  warnings (scanLines index lines an)
  = app (warnings an) (qualityWarnings index lines).
Proof.
  revert index an. induction lines as [|l lines IH]; intros index an.
  - cbn. now rewrite app_nil_r.
  - cbn [scanLines qualityWarnings]. rewrite IH.
    unfold detectCodeQualityIssues, unsafeLine.
    destruct (Js.is_empty l) eqn:E.
    + apply is_empty_true in E. subst l. reflexivity.
    + destruct (Js.includes l "strcpy(" && negb (Js.includes l "strncpy")).
      * cbn [warnings push_warning]. now rewrite <- app_assoc.
      * reflexivity.
Qed.

Lemma qualityWarnings_unsafe index lines :
  Forall (fun x => w_type x = "Unsafe Function") (qualityWarnings index lines).
Proof.
  revert index. induction lines as [|l lines IH]; intros index; cbn.
  - constructor.
  - apply Forall_app. split; [|apply IH].
    destruct (unsafeLine l); repeat constructor.
Qed.

Lemma unsafeAt_app lineNum xs ys :
  unsafeAt lineNum (app xs ys) = unsafeAt lineNum xs + unsafeAt lineNum ys.
Proof. unfold unsafeAt. now rewrite filter_app, length_app. Qed.

Lemma unsafeAt_filter lineNum xs :
  unsafeAt lineNum xs = unsafeAt lineNum (filter isUnsafeFunction xs).
Proof.
  unfold unsafeAt. induction xs as [|x xs IH]; [reflexivity|].
  cbn [filter]. destruct (isUnsafeFunction x) eqn:E.
  - cbn [filter]. rewrite E. cbn [andb].
    destruct (w_line x =? lineNum); cbn [length]; now rewrite IH.
  - cbn [andb]. exact IH.
Qed.

Lemma nthUnsafe_nil i : nthUnsafe [] i = false.
Proof. unfold nthUnsafe. now destruct i. Qed.

Lemma qualityWarnings_at lineNum lines index :
  unsafeAt lineNum (qualityWarnings index lines)
  = if (index <? lineNum) && nthUnsafe lines (lineNum - S index)
    then 1 else 0.
Proof.
  revert index. induction lines as [|l lines IH]; intros index.
  - rewrite nthUnsafe_nil, andb_false_r. reflexivity.
  - cbn [qualityWarnings]. rewrite unsafeAt_app, IH.
    destruct (Nat.ltb_spec index lineNum) as [Hlt|Hge].
    + destruct (Nat.eq_dec lineNum (S index)) as [->|Hne].
      * rewrite Nat.ltb_irrefl, Nat.sub_diag. cbn [andb nthUnsafe nth_error].
        destruct (unsafeLine l); [|reflexivity].
        unfold unsafeAt. cbn [filter unsafeWarning w_line].
        replace (index + 1) with (S index) by lia.
        now rewrite Nat.eqb_refl.
      * replace (lineNum - S index) with (S (lineNum - S (S index))) by lia.
        assert (Hlt' : (S index <? lineNum) = true)
          by (apply Nat.ltb_lt; lia).
        rewrite Hlt'. unfold nthUnsafe at 2. cbn [andb nth_error].
        fold (nthUnsafe lines (lineNum - S (S index))).
        assert (H0 : unsafeAt lineNum
                       (if unsafeLine l
                        then [unsafeWarning (index + 1) l] else []) = 0).
        { destruct (unsafeLine l); [|reflexivity].
          unfold unsafeAt. cbn [filter unsafeWarning w_line].
          assert (E : (index + 1 =? lineNum) = false)
            by (apply Nat.eqb_neq; lia).
          cbn. now rewrite E. }
        now rewrite H0.
    + assert (Hlt' : (S index <? lineNum) = false)
        by (apply Nat.ltb_ge; lia).
      rewrite Hlt'. cbn [andb]. rewrite Nat.add_0_r.
      destruct (unsafeLine l); [|reflexivity].
      unfold unsafeAt. cbn [filter unsafeWarning w_line].
      assert (E : (index + 1 =? lineNum) = false)
        by (apply Nat.eqb_neq; lia).
      cbn. now rewrite E.
Qed.

Lemma C9_counterexample :
  ~ (exists r,
       fst (analyzeSource None clock0 (InString twoCopies) "c") = Returns r
       /\ countUnsafe (warnings r) = occurrences "strcpy(" twoCopies).
Proof.
  intros (r & H & Hc). revert H. compute_run.
  intros [= <-]. vm_compute in Hc. discriminate.
Qed.

(** C9. Whatever the state of the instance and whatever events the parser
    returns, the "Unsafe Function" warnings of the result are those of the
    raw lines that contain "strcpy(" and do not contain "strncpy": there
    is exactly one warning with the number of such a line, however often
    the call occurs on it, and none with any other line number; in line
    order they are the warnings of [qualityWarnings], and their number is
    the number of such lines. *)
Theorem C9_one_unsafe_warning_per_line :
  forall (now : nat -> N) (this : Analyzer) (text : string) (ast : AST),
    Js.is_empty text = false ->
    this_astParser this text = Returns ast ->
    exists r,
      fst (analyze now this (InString text)) = Returns r
      /\ countUnsafe (warnings r)
         = length (filter unsafeLine (Js.split_lines text))
      /\ filter isUnsafeFunction (warnings r)
         = qualityWarnings 0 (Js.split_lines text)
      /\ forall lineNum : nat,
           unsafeAt lineNum (warnings r)
           = if unsafeLineAt (Js.split_lines text) lineNum then 1 else 0.
Proof.
  intros now this text ast Hne Hparse. unfold analyze.
  rewrite Hne, Hparse.
  pose proof (processNodes_countUnsafe now text (body ast)
                (this, newAnalysis)) as H.
  pose proof (processNodes_unsafe now text (body ast)
                (this, newAnalysis)) as HF.
  destruct (processNodes _ _ _ _) as [this1 an1].
  eexists. split; [reflexivity|].
  cbn [fst snd findLeaks warnings] in *.
  assert (E : filter isUnsafeFunction
                (warnings (scanLines 0 (Js.split_lines text) an1))
              = qualityWarnings 0 (Js.split_lines text)).
  { rewrite scanLines_warnings, filter_app, HF. cbn [app].
    apply filter_all_true.
    eapply Forall_impl; [|apply qualityWarnings_unsafe].
    intros x Hx. unfold isUnsafeFunction. now rewrite Hx. }
  split; [|split].
  - rewrite scanLines_countUnsafe, H. reflexivity.
  - exact E.
  - intros lineNum. rewrite unsafeAt_filter, E, qualityWarnings_at.
    destruct lineNum as [|i]; [reflexivity|].
    cbn [unsafeLineAt]. replace (S i - 1) with i by lia. reflexivity.
Qed.

Lemma C9_witness :
  exists r,
    fst (analyze clock0 (newMemoryAnalyzer None "c") (InString twoCopies))
      = Returns r
    /\ countUnsafe (warnings r)
       = length (filter unsafeLine (Js.split_lines twoCopies))
    /\ filter isUnsafeFunction (warnings r)
       = qualityWarnings 0 (Js.split_lines twoCopies)
    /\ forall lineNum : nat,
         unsafeAt lineNum (warnings r)
         = if unsafeLineAt (Js.split_lines twoCopies) lineNum then 1 else 0.
Proof.
  refine (C9_one_unsafe_warning_per_line clock0 (newMemoryAnalyzer None "c")
            twoCopies (parse None "c" twoCopies) _ _).
  - reflexivity.
  - reflexivity.
Defined.

(* --------------------------------------------------------------------- *)
(** *** Unrecognized languages *)

Section MapValues.
Context {V W : Type} (f : V -> W).

Lemma get_mapValues k (m : JsMap.t V) :
  JsMap.get k (mapValues f m) = option_map f (JsMap.get k m).
Proof.
  induction m as [|[k' v'] m IH]; simpl; [reflexivity|].
  destruct (String.eqb k k'); [reflexivity|exact IH].
Qed.

Lemma set_mapValues k v (m : JsMap.t V) :
  mapValues f (JsMap.set k v m) = JsMap.set k (f v) (mapValues f m).
Proof.
  induction m as [|[k' v'] m IH]; simpl; [reflexivity|].
  destruct (String.eqb k k'); simpl; [reflexivity|]. now rewrite IH.
Qed.

Lemma delete_mapValues k (m : JsMap.t V) :
  mapValues f (JsMap.delete k m) = JsMap.delete k (mapValues f m).
Proof.
  induction m as [|[k' v'] m IH]; simpl; [reflexivity|].
  destruct (String.eqb k k'); simpl; [exact IH|]. now rewrite IH.
Qed.

End MapValues.

Lemma last_opt_map {A B : Type} (f : A -> B) (l : list A) :
  last_opt (map f l) = option_map f (last_opt l).
Proof.
  unfold last_opt. rewrite <- map_rev. now destruct (rev l).
Qed.

Lemma removelast_map {A B : Type} (f : A -> B) (l : list A) :
  removelast (map f l) = map f (removelast l).
Proof.
  induction l as [|a [|b l] IH]; simpl in *; [reflexivity..|].
  now rewrite IH.
Qed.

Lemma eraseLeak_reassignLeak a x :
  eraseLeak (reassignLeak a x) = reassignLeak (eraseAlloc a) (eraseAlloc x).
Proof. reflexivity. Qed.

Lemma eraseLeak_leakOf k a : eraseLeak (leakOf k a) = leakOf k (eraseAlloc a).
Proof. reflexivity. Qed.

Lemma handleAllocation_analysis alloc this an :
  Js.is_empty (a_var alloc) = false ->
  snd (handleAllocation alloc (this, an))
  = push_allocation
      (match JsMap.get (a_var alloc) (this_allocations this) with
       | Some l =>
           match last_opt l with
           | Some x => push_leak an (reassignLeak alloc x)
           | None => an
           end
       | None => an
       end) alloc.
Proof.
  intros Hvar. unfold handleAllocation. rewrite Hvar.
  repeat break_match; try reflexivity; try congruence.
Qed.

(** Related stacks are found in related maps. *)
Lemma Sim_get st1 st2 k :
  Sim st1 st2 ->
  option_map (map eraseAlloc) (JsMap.get k (this_allocations (fst st1)))
  = option_map (map eraseAlloc) (JsMap.get k (this_allocations (fst st2))).
Proof.
  intros [H _]. rewrite <- !get_mapValues. now rewrite H.
Qed.

Lemma handleAllocation_Sim a1 a2 st1 st2 :
  Sim st1 st2 -> eraseAlloc a1 = eraseAlloc a2 ->
  Sim (handleAllocation a1 st1) (handleAllocation a2 st2).
Proof.
  intros HS Ha.
  assert (Hv : a_var a1 = a_var a2) by exact (f_equal a_var Ha).
  pose proof (Sim_get st1 st2 (a_var a1) HS) as Hg.
  destruct st1 as [t1 n1], st2 as [t2 n2]. destruct HS as [Hm Hr].
  simpl in Hm, Hr, Hg.
  destruct (Js.is_empty (a_var a1)) eqn:E1.
  - unfold handleAllocation. rewrite E1. rewrite <- Hv, E1. now split.
  - assert (E2 : Js.is_empty (a_var a2) = false) by now rewrite <- Hv.
    split.
    + rewrite !handleAllocation_allocations by assumption.
      rewrite !set_mapValues, !map_app, <- Hv, Hm. simpl. rewrite Ha.
      do 2 f_equal. rewrite <- Hv in *.
      destruct (JsMap.get (a_var a1) (this_allocations t1)),
               (JsMap.get (a_var a1) (this_allocations t2));
        simpl in Hg; try discriminate; [|reflexivity].
      injection Hg as Hg. now rewrite <- !removelast_map, Hg.
    + rewrite !handleAllocation_analysis by assumption. rewrite <- Hv in *.
      destruct (JsMap.get (a_var a1) (this_allocations t1)) as [l1|],
               (JsMap.get (a_var a1) (this_allocations t2)) as [l2|];
        simpl in Hg; try discriminate.
      * injection Hg as Hg.
        pose proof (f_equal last_opt Hg) as Hl. rewrite !last_opt_map in Hl.
        destruct (last_opt l1) as [x1|], (last_opt l2) as [x2|];
          simpl in Hl; try discriminate.
        -- assert (Hx : eraseAlloc x1 = eraseAlloc x2) by congruence.
           unfold eraseResult in *. simpl.
           injection Hr as R1 R2 R3 R4 R5.
           rewrite !map_app, R1, R2, R3, R4, R5. simpl.
           now rewrite !eraseLeak_reassignLeak, Ha, Hx.
        -- unfold eraseResult in *. simpl.
           injection Hr as R1 R2 R3 R4 R5.
           rewrite !map_app, R1, R2, R3, R4, R5. simpl. now rewrite Ha.
      * unfold eraseResult in *. simpl.
        injection Hr as R1 R2 R3 R4 R5.
        rewrite !map_app, R1, R2, R3, R4, R5. simpl. now rewrite Ha.
Qed.

Lemma handleFree_Sim f1 f2 st1 st2 :
  Sim st1 st2 ->
  f_var f1 = f_var f2 -> f_line f1 = f_line f2 ->
  f_lineText f1 = f_lineText f2 ->
  Sim (handleFree f1 st1) (handleFree f2 st2).
Proof.
  intros HS Hv Hline Htext.
  pose proof (Sim_get st1 st2 (f_var f1) HS) as Hg.
  destruct st1 as [t1 n1], st2 as [t2 n2]. destruct HS as [Hm Hr].
  simpl in Hm, Hr, Hg. unfold handleFree.
  rewrite <- Hv, <- Hline, <- Htext.
  destruct (Js.is_empty (f_var f1)); [now split|].
  unfold eraseResult in Hr. injection Hr as R1 R2 R3 R4 R5.
  destruct (JsMap.get (f_var f1) (this_allocations t1)) as [l1|],
           (JsMap.get (f_var f1) (this_allocations t2)) as [l2|];
    simpl in Hg; try discriminate.
  - injection Hg as Hg.
    pose proof (f_equal last_opt Hg) as Hl. rewrite !last_opt_map in Hl.
    pose proof (f_equal (@removelast Alloc) Hg) as Hrl.
    rewrite !removelast_map in Hrl.
    destruct (last_opt l1) as [x1|], (last_opt l2) as [x2|];
      simpl in Hl; try discriminate.
    + destruct (removelast l1) as [|y1 r1] eqn:E1,
               (removelast l2) as [|y2 r2] eqn:E2;
        simpl in Hrl; try discriminate.
      * split; simpl.
        -- now rewrite !delete_mapValues, !set_mapValues, Hm.
        -- unfold eraseResult. simpl.
           rewrite !map_app, R1, R2, R3, R4, R5. reflexivity.
      * split; simpl.
        -- rewrite !set_mapValues, Hm. simpl. simpl in Hrl. now rewrite Hrl.
        -- unfold eraseResult. simpl.
           rewrite !map_app, R1, R2, R3, R4, R5. reflexivity.
    + split; simpl; [assumption|].
      unfold eraseResult. simpl. now rewrite R1, R2, R3, R4, R5.
  - split; simpl; [assumption|].
    unfold eraseResult. simpl. now rewrite R1, R2, R3, R4, R5.
Qed.

Lemma processNode_Sim now1 now2 code st1 st2 node :
  Sim st1 st2 ->
  Sim (processNode now1 code st1 node) (processNode now2 code st2 node).
Proof.
  intros HS. destruct st1 as [t1 n1], st2 as [t2 n2].
  unfold_processNode. destruct (n_type node).
  - match goal with
    | |- Sim (let '(_, _) := handleAllocation ?a1 ?s1 in _)
             (let '(_, _) := handleAllocation ?a2 ?s2 in _) =>
        assert (H : Sim (handleAllocation a1 s1) (handleAllocation a2 s2))
          by (apply handleAllocation_Sim; [exact HS|reflexivity]);
        destruct (handleAllocation a1 s1), (handleAllocation a2 s2)
    end.
    exact H.
  - match goal with
    | |- Sim (let '(_, _) := handleFree ?f1 ?s1 in _)
             (let '(_, _) := handleFree ?f2 ?s2 in _) =>
        assert (H : Sim (handleFree f1 s1) (handleFree f2 s2))
          by (apply handleFree_Sim; [exact HS|reflexivity..]);
        destruct (handleFree f1 s1), (handleFree f2 s2)
    end.
    exact H.
Qed.

Lemma processNodes_Sim now1 now2 code ns st1 st2 :
  Sim st1 st2 ->
  Sim (processNodes now1 code st1 ns) (processNodes now2 code st2 ns).
Proof.
  unfold processNodes. revert st1 st2.
  induction ns as [|n ns IH]; intros st1 st2 HS; simpl.
  - exact HS.
  - apply IH. now apply processNode_Sim.
Qed.

Lemma liveLeaks_erase (m : JsMap.t (list Alloc)) :
  map eraseLeak (liveLeaks m) = liveLeaks (mapValues (map eraseAlloc) m).
Proof.
  induction m as [|[k l] m IH]; simpl; [reflexivity|].
  rewrite map_app, IH, !map_map. f_equal.
Qed.

Lemma findLeaks_Sim t1 n1 t2 n2 :
  Sim (t1, n1) (t2, n2) ->
  eraseResult (findLeaks t1 n1) = eraseResult (findLeaks t2 n2).
Proof.
  intros [Hm Hr]. simpl in Hm, Hr.
  unfold eraseResult in *. injection Hr as R1 R2 R3 R4 R5. simpl.
  now rewrite !map_app, !liveLeaks_erase, Hm, R1, R2, R3, R4, R5.
Qed.

Lemma scanLines_erase lines index an :
  eraseResult (scanLines index lines an)
  = scanLines index lines (eraseResult an).
Proof.
  revert index an. induction lines as [|l lines IH]; intros index an; simpl.
  - reflexivity.
  - rewrite IH. f_equal. unfold detectCodeQualityIssues.
    repeat break_match; reflexivity.
Qed.

Lemma recognized_false language :
  recognized language = false ->
  String.eqb language "c" = false /\ String.eqb language "cpp" = false
  /\ String.eqb language "javascript" = false
  /\ String.eqb language "python" = false
  /\ String.eqb language "java" = false
  /\ String.eqb language "rust" = false
  /\ String.eqb language "go" = false.
Proof.
  unfold recognized. simpl. intros H.
  repeat (apply Bool.orb_false_elim in H; destruct H as [? H]).
  repeat split; assumption.
Qed.

Lemma parse_unrecognized acorn language text :
  recognized language = false ->
  parse acorn language text = parse acorn "c" text.
Proof.
  intros H. apply recognized_false in H.
  destruct H as (H1 & H2 & H3 & H4 & H5 & H6 & H7).
  unfold parse. rewrite H1, H2, H3, H4, H5, H6, H7.
  reflexivity.
Qed.

Lemma calculateSizeFromAST_unrecognized language node args :
  recognized language = false ->
  calculateSizeFromAST language node args = 1%Z.
Proof.
  intros H. apply recognized_false in H.
  destruct H as (H1 & H2 & H3 & H4 & H5 & H6 & H7).
  unfold calculateSizeFromAST. rewrite H1, H2, H3, H4, H5, H6, H7.
  reflexivity.
Qed.

Lemma handleAllocation_sizes alloc this an :
  a_size alloc = 1%Z ->
  Forall (fun a => a_size a = 1%Z) (allocations an) ->
  Forall (fun a => a_size a = 1%Z)
    (allocations (snd (handleAllocation alloc (this, an)))).
Proof.
  intros Hsz Hall. destruct (Js.is_empty (a_var alloc)) eqn:Ev.
  - unfold handleAllocation. rewrite Ev. exact Hall.
  - rewrite handleAllocation_analysis by assumption. simpl.
    apply Forall_app. split.
    + repeat break_match; simpl; exact Hall.
    + constructor; [exact Hsz|constructor].
Qed.

Lemma processNode_sizes now code st node :
  recognized (this_language (fst st)) = false ->
  Forall (fun a => a_size a = 1%Z) (allocations (snd st)) ->
  recognized (this_language (fst (processNode now code st node))) = false
  /\ Forall (fun a => a_size a = 1%Z)
       (allocations (snd (processNode now code st node))).
Proof.
  destruct st as [this an]. intros Hl Hall. cbn [fst snd] in Hl, Hall.
  unfold_processNode.
  destruct (n_type node).
  - match goal with
    | |- context [handleAllocation ?a (?t, ?s)] =>
        pose proof (handleAllocation_frame a t s) as HF;
        pose proof (handleAllocation_sizes a t s) as HA;
        destruct (handleAllocation a (t, s)) as [t' s']
    end.
    simpl in HF, HA. destruct HF as (_ & _ & HL & _).
    simpl. split; [now rewrite HL|].
    apply HA; [|exact Hall].
    now apply calculateSizeFromAST_unrecognized.
  - match goal with
    | |- context [handleFree ?f (?t, ?s)] =>
        pose proof (handleFree_frame f t s) as HF;
        destruct (handleFree f (t, s)) as [t' s']
    end.
    simpl in HF. destruct HF as (_ & _ & HL & _ & HA & _).
    simpl. split; [now rewrite HL|now rewrite HA].
Qed.

Lemma processNodes_sizes now code ns st :
  recognized (this_language (fst st)) = false ->
  Forall (fun a => a_size a = 1%Z) (allocations (snd st)) ->
  Forall (fun a => a_size a = 1%Z)
    (allocations (snd (processNodes now code st ns))).
Proof.
  unfold processNodes. revert st.
  induction ns as [|n ns IH]; intros st Hl Hall; simpl.
  - exact Hall.
  - destruct (processNode_sizes now code st n Hl Hall) as [Hl' Hall'].
    now apply IH.
Qed.

Lemma C8_counterexample :
  recognized "html" = false
  /\ mapOutcome eraseIds
       (fst (analyzeSource None clock0 (InString plainSource) "html"))
     <> mapOutcome eraseIds
          (fst (analyzeSource None clock0 (InString plainSource) "c")).
Proof.
  split; [reflexivity|]. intros H. vm_compute in H. discriminate.
Qed.

(** C8. Under a language outside the recognized ones the parser extracts
    the events it extracts under 'c', and the result is the one under 'c'
    except for the estimated sizes, which are all 1, and the language tag
    of the allocation records (and the allocation ids). *)
Theorem C8_unrecognized_language_differs_in_sizes_only :
  forall acorn (now1 now2 : nat -> N) (language : string) (input : JsInput),
    recognized language = false ->
    (forall text, parse acorn language text = parse acorn "c" text)
    /\ mapOutcome eraseResult
         (fst (analyzeSource acorn now1 input language))
       = mapOutcome eraseResult (fst (analyzeSource acorn now2 input "c"))
    /\ (forall r,
          fst (analyzeSource acorn now1 input language) = Returns r ->
          Forall (fun a => a_size a = 1%Z) (allocations r)).
Proof.
  intros acorn now1 now2 language input Hrec. split; [|split].
  - intros text. now apply parse_unrecognized.
  - unfold analyzeSource, analyze.
    destruct input as [t| | | | |]; try reflexivity.
    destruct (Js.is_empty t); [reflexivity|].
    cbn [this_astParser newMemoryAnalyzer].
    rewrite (parse_unrecognized acorn language t Hrec).
    assert (HS : Sim (newMemoryAnalyzer acorn language, newAnalysis)
                     (newMemoryAnalyzer acorn "c", newAnalysis))
      by (split; reflexivity).
    apply (processNodes_Sim now1 now2 t (body (parse acorn "c" t))) in HS.
    destruct (processNodes now1 _ _ _) as [t1 n1],
             (processNodes now2 _ _ _) as [t2 n2].
    cbn [fst mapOutcome]. f_equal.
    apply findLeaks_Sim. destruct HS as [Hm Hr]. split; [exact Hm|].
    cbn [snd] in *. now rewrite !scanLines_erase, Hr.
  - intros r. unfold analyzeSource, analyze.
    destruct input as [t| | | | |]; try discriminate.
    destruct (Js.is_empty t); [discriminate|].
    cbn [this_astParser newMemoryAnalyzer].
    pose proof (processNodes_sizes now1 t (body (parse acorn language t))
                  (newMemoryAnalyzer acorn language, newAnalysis) Hrec
                  (Forall_nil _)) as H.
    destruct (processNodes _ _ _ _) as [t1 n1]. cbn [fst snd] in *.
    intros [= <-]. cbn [allocations findLeaks].
    destruct (scanLines_frame (Js.split_lines t) 0 n1) as (A & _).
    cbn zeta in A. now rewrite A.
Qed.

Lemma C8_witness :
  (forall text, parse None "html" text = parse None "c" text)
  /\ mapOutcome eraseResult
       (fst (analyzeSource None clock0 (InString plainSource) "html"))
     = mapOutcome eraseResult
         (fst (analyzeSource None clock0 (InString plainSource) "c"))
  /\ (forall r,
        fst (analyzeSource None clock0 (InString plainSource) "html")
          = Returns r ->
        Forall (fun a => a_size a = 1%Z) (allocations r)).
Proof.
  apply (C8_unrecognized_language_differs_in_sizes_only None clock0 clock0
           "html" (InString plainSource)).
  reflexivity.
Defined.

(* --------------------------------------------------------------------- *)
(** *** The tracker on well-formed maps *)

Section MapSplit.
Context {V : Type}.
Implicit Types (m : JsMap.t V) (k : string) (v : V).

Lemma get_None_keys m k : JsMap.get k m = None <-> ~ In k (keys m).
Proof.
  induction m as [|[k' v'] m IH]; simpl.
  - tauto.
  - destruct (String.eqb_spec k k') as [->|Hne].
    + split; [discriminate|]. intros H. exfalso. apply H. now left.
    + rewrite IH. split.
      * intros H [E|I]; [now apply Hne|now apply H].
      * intros H I. apply H. now right.
Qed.

Lemma get_split m k v :
  JsMap.get k m = Some v ->
  exists m1 m2, m = app m1 ((k, v) :: m2) /\ JsMap.get k m1 = None.
Proof.
  induction m as [|[k' v'] m IH]; simpl; [discriminate|].
  destruct (String.eqb_spec k k') as [->|Hne].
  - intros [= ->]. now exists [], m.
  - intros H. destruct (IH H) as (m1 & m2 & -> & G).
    exists ((k', v') :: m1), m2. split; [reflexivity|].
    simpl. destruct (String.eqb_spec k k'); [contradiction|exact G].
Qed.

Lemma set_split m1 m2 k v v' :
  JsMap.get k m1 = None ->
  JsMap.set k v' (app m1 ((k, v) :: m2)) = app m1 ((k, v') :: m2).
Proof.
  induction m1 as [|[k1 v1] m1 IH]; simpl.
  - now rewrite String.eqb_refl.
  - destruct (String.eqb k k1); [discriminate|].
    intros H. now rewrite IH.
Qed.

Lemma set_absent m k v :
  JsMap.get k m = None -> JsMap.set k v m = app m [(k, v)].
Proof.
  induction m as [|[k1 v1] m IH]; simpl; [reflexivity|].
  destruct (String.eqb k k1); [discriminate|].
  intros H. now rewrite IH.
Qed.

Lemma delete_absent m k : ~ In k (keys m) -> JsMap.delete k m = m.
Proof.
  induction m as [|[k1 v1] m IH]; simpl; [reflexivity|].
  intros H. destruct (String.eqb_spec k k1) as [->|Hne].
  - exfalso. apply H. now left.
  - rewrite IH; [reflexivity|]. intros I. apply H. now right.
Qed.

Lemma delete_split m1 m2 k v :
  ~ In k (keys m1) -> ~ In k (keys m2) ->
  JsMap.delete k (app m1 ((k, v) :: m2)) = app m1 m2.
Proof.
  intros H1 H2. induction m1 as [|[k1 v1] m1 IH]; simpl.
  - rewrite String.eqb_refl. now apply delete_absent.
  - destruct (String.eqb_spec k k1) as [->|Hne].
    + exfalso. apply H1. now left.
    + rewrite IH; [reflexivity|]. intros I. apply H1. now right.
Qed.

Lemma keys_app m1 m2 : keys (app m1 m2) = app (keys m1) (keys m2).
Proof. apply map_app. Qed.

End MapSplit.

Lemma handleAllocation_memory alloc this an :
  Js.is_empty (a_var alloc) = false ->
  this_currentMemory (fst (handleAllocation alloc (this, an)))
  = (this_currentMemory this
     - match JsMap.get (a_var alloc) (this_allocations this) with
       | Some l => match last_opt l with Some x => a_size x | None => 0 end
       | None => 0
       end
     + a_size alloc)%Z.
Proof.
  intros Hvar. unfold handleAllocation. rewrite Hvar.
  destruct (JsMap.get (a_var alloc) (this_allocations this)) as [l|] eqn:G.
  - destruct (last_opt l) as [x|] eqn:L; simpl.
    + unfold JsMap.has. rewrite !get_set_same. simpl.
      rewrite get_set_same. reflexivity.
    + unfold JsMap.has. rewrite G. simpl. rewrite G. simpl. lia.
  - simpl. unfold JsMap.has. rewrite G. simpl. rewrite get_set_same.
    simpl. lia.
Qed.

Lemma handleFree_view free this an :
  view (handleFree free (this, an))
  = if Js.is_empty (f_var free) then view (this, an)
    else
      match JsMap.get (f_var free) (this_allocations this) with
      | None =>
          (this_allocations this, this_currentMemory this,
           push_warning an (potentialDoubleFree free))
      | Some l =>
          match last_opt l with
          | None =>
              (this_allocations this, this_currentMemory this,
               push_warning an (doubleFree free))
          | Some x =>
              (match removelast l with
               | [] =>
                   JsMap.delete (f_var free)
                     (JsMap.set (f_var free) [] (this_allocations this))
               | l' => JsMap.set (f_var free) l' (this_allocations this)
               end,
               (this_currentMemory this - a_size x)%Z,
               push_free an (freeEntryOf free x))
          end
      end.
Proof.
  unfold handleFree. repeat break_match; reflexivity.
Qed.

Lemma Struct_get m k l :
  Struct m -> JsMap.get k m = Some l -> exists x, l = [x].
Proof.
  intros [_ HF] G.
  exact (Forall_get (fun l => exists x, l = [x]) m k l HF G).
Qed.

Lemma Struct_split m1 m2 k l :
  Struct (app m1 ((k, l) :: m2)) ->
  ~ In k (keys m1) /\ ~ In k (keys m2).
Proof.
  intros [ND _]. rewrite keys_app in ND. simpl in ND.
  apply NoDup_remove_2 in ND. rewrite in_app_iff in ND. tauto.
Qed.

Lemma handleAllocation_astep alloc this an :
  Struct (this_allocations this) ->
  astep (view (this, an)) (view (handleAllocation alloc (this, an))).
Proof.
  intros HS. destruct (Js.is_empty (a_var alloc)) eqn:Hvar.
  - unfold handleAllocation. rewrite Hvar. apply S_skip.
  - unfold view.
    rewrite handleAllocation_allocations, handleAllocation_memory,
      handleAllocation_analysis by assumption.
    cbn [fst snd].
    destruct (JsMap.get (a_var alloc) (this_allocations this)) as [l|] eqn:G.
    + destruct (Struct_get _ _ _ HS G) as [x ->].
      destruct (get_split _ _ _ G) as (m1 & m2 & Hm & G1).
      rewrite Hm. rewrite set_split by assumption.
      change (last_opt [x]) with (Some x). cbn [removelast app].
      now apply S_reassign.
    + rewrite set_absent by assumption. cbn [app].
      replace (this_currentMemory this - 0 + a_size alloc)%Z
        with (this_currentMemory this + a_size alloc)%Z by lia.
      now apply S_new.
Qed.

Lemma handleFree_astep free this an :
  Struct (this_allocations this) ->
  astep (view (this, an)) (view (handleFree free (this, an))).
Proof.
  intros HS. rewrite handleFree_view.
  destruct (Js.is_empty (f_var free)) eqn:Hvar; [apply S_skip|].
  unfold view. cbn [fst snd].
  destruct (JsMap.get (f_var free) (this_allocations this)) as [l|] eqn:G.
  - destruct (Struct_get _ _ _ HS G) as [x ->].
    destruct (get_split _ _ _ G) as (m1 & m2 & Hm & G1).
    change (last_opt [x]) with (Some x). cbn [removelast].
    rewrite Hm in HS |- *.
    destruct (Struct_split _ _ _ _ HS) as [N1 N2].
    rewrite set_split by assumption. rewrite delete_split by assumption.
    now apply S_free.
  - now apply S_unbound.
Qed.

Lemma countBy_app {A : Type} (var : A -> string) p (l1 l2 : list A) :
  countBy var p (app l1 l2) = countBy var p l1 + countBy var p l2.
Proof. unfold countBy. now rewrite filter_app, length_app. Qed.

Lemma countBy_one {A : Type} (var : A -> string) p (x : A) :
  countBy var p [x] = if p (var x) then 1 else 0.
Proof. unfold countBy. simpl. now destruct (p (var x)). Qed.

Lemma countBy_cons {A : Type} (var : A -> string) p (x : A) l :
  countBy var p (x :: l) = (if p (var x) then 1 else 0) + countBy var p l.
Proof. unfold countBy. simpl. now destruct (p (var x)). Qed.

Lemma sumZ_app l1 l2 : sumZ (app l1 l2) = (sumZ l1 + sumZ l2)%Z.
Proof. induction l1; simpl; lia. Qed.

Lemma liveRecords_app m1 m2 :
  liveRecords (app m1 m2) = app (liveRecords m1) (liveRecords m2).
Proof. unfold liveRecords. now rewrite map_app, concat_app. Qed.

Lemma Struct_initial : Struct JsMap.empty.
Proof. split; constructor. Qed.

Lemma astep_Struct m mem an m' mem' an' :
  astep (m, mem, an) (m', mem', an') -> Struct m -> Struct m'.
Proof.
  intros H. inversion H; subst; clear H; intros [ND HF].
  - now split.
  - split.
    + rewrite keys_app. simpl.
      apply NoDup_app; [exact ND|repeat constructor; simpl; tauto|].
      intros k I [<-|[]].
      match goal with G : JsMap.get _ _ = None |- _ =>
        now apply get_None_keys in G end.
    + apply Forall_app. split; [exact HF|]. repeat constructor. now exists alloc.
  - split.
    + rewrite keys_app in *. exact ND.
    + apply Forall_app in HF. destruct HF as [F1 F2].
      apply Forall_app. split; [exact F1|].
      inversion F2; subst. constructor; [now exists alloc|assumption].
  - split.
    + rewrite keys_app in *. simpl in ND. now apply NoDup_remove_1 in ND.
    + apply Forall_app in HF. destruct HF as [F1 F2].
      apply Forall_app. split; [exact F1|]. now inversion F2.
  - now split.
Qed.

Lemma keys_weaken (m : JsMap.t (list Alloc)) (l1 l2 : list Alloc) :
  Forall (fun e => Js.is_empty (fst e) = false
                   /\ Forall (fun x => a_var x = fst e /\ In x l1) (snd e)) m ->
  Forall (fun e => Js.is_empty (fst e) = false
                   /\ Forall (fun x => a_var x = fst e /\ In x (app l1 l2))
                        (snd e)) m.
Proof.
  intros H. eapply Forall_impl; [|exact H].
  intros e [E F]. split; [exact E|].
  eapply Forall_impl; [|exact F].
  intros x [Hx I]. split; [exact Hx|]. apply in_or_app. now left.
Qed.

Lemma frees_weaken (fs : list FreeEntry) (l1 l2 : list Alloc) :
  Forall (fun f => exists a, In a l1 /\ a_allocId a = fe_freedAllocId f
                             /\ a_var a = fe_var f) fs ->
  Forall (fun f => exists a, In a (app l1 l2)
                             /\ a_allocId a = fe_freedAllocId f
                             /\ a_var a = fe_var f) fs.
Proof.
  intros H. eapply Forall_impl; [|exact H].
  intros f (a & I & E). exists a. split; [|exact E].
  apply in_or_app. now left.
Qed.

Lemma leaks_weaken (ls : list Leak) (l1 l2 : list Alloc) :
  Forall (fun l => exists a, In a l1 /\ l_var l = a_var a
                             /\ l_line l = a_line a /\ l_size l = a_size a
                             /\ l_inLoop l = a_inLoop a) ls ->
  Forall (fun l => exists a, In a (app l1 l2) /\ l_var l = a_var a
                             /\ l_line l = a_line a /\ l_size l = a_size a
                             /\ l_inLoop l = a_inLoop a) ls.
Proof.
  intros H. eapply Forall_impl; [|exact H].
  intros l (a & I & E). exists a. split; [|exact E].
  apply in_or_app. now left.
Qed.

Lemma astep_Good v v' : Good v -> astep v v' -> Good v'.
Proof.
  intros G H. pose proof G as [GS GK GM GC GF GW GL].
  inversion H; subst; clear H; cbn [fst snd] in *.
  - exact G.
  - (* a new variable *)
    constructor; cbn [fst snd push_allocation allocations frees leaks warnings].
    + eapply (astep_Struct _ 0%Z newAnalysis); [|exact GS]. now apply S_new.
    + apply Forall_app. split; [now apply keys_weaken|].
      repeat constructor; cbn [fst snd]; try assumption.
      apply in_or_app. right. now left.
    + rewrite liveRecords_app, map_app, sumZ_app, <- GM.
      unfold liveRecords. simpl. lia.
    + intros p. rewrite !countBy_app, GC, !countBy_one. cbn [fst]. lia.
    + now apply frees_weaken.
    + exact GW.
    + now apply leaks_weaken.
  - (* a bound variable is bound again *)
    rewrite liveRecords_app, map_app, sumZ_app in GM.
    apply Forall_app in GK. destruct GK as [GK1 GK2].
    inversion GK2 as [|e es [Ke Fe] GK3]; subst. cbn [fst snd] in *.
    constructor;
      cbn [fst snd push_allocation push_leak allocations frees leaks warnings].
    + eapply (astep_Struct _ 0%Z newAnalysis); [|exact GS]. now apply S_reassign.
    + apply Forall_app. split; [now apply keys_weaken|].
      constructor; [|now apply keys_weaken].
      cbn [fst snd]. split; [assumption|].
      repeat constructor. apply in_or_app. right. now left.
    + rewrite liveRecords_app, map_app, sumZ_app.
      unfold liveRecords in *. simpl in *. lia.
    + intros p. specialize (GC p).
      rewrite !countBy_app, !countBy_one, !countBy_cons in *.
      cbn [fst l_var reassignLeak] in *. lia.
    + now apply frees_weaken.
    + exact GW.
    + inversion Fe as [|x0 xs [Vx Ix] _]; subst.
      apply Forall_app. split; [now apply leaks_weaken|].
      constructor; [|constructor]. exists x.
      split; [apply in_or_app; now left|].
      cbn [reassignLeak l_var l_line l_size l_inLoop]. now rewrite Vx.
  - (* a bound variable is released *)
    rewrite liveRecords_app, map_app, sumZ_app in GM.
    apply Forall_app in GK. destruct GK as [GK1 GK2].
    inversion GK2 as [|e es [Ke Fe] GK3]; subst. cbn [fst snd] in *.
    inversion Fe as [|x0 xs [Vx Ix] _]; subst.
    constructor;
      cbn [fst snd push_free allocations frees leaks warnings].
    + eapply (astep_Struct _ 0%Z newAnalysis); [|exact GS]. now apply S_free.
    + apply Forall_app. now split.
    + rewrite liveRecords_app, map_app, sumZ_app.
      unfold liveRecords in *. simpl in *. lia.
    + intros p. specialize (GC p).
      rewrite !countBy_app, !countBy_one, !countBy_cons in *.
      cbn [fst fe_var freeEntryOf] in *. lia.
    + apply Forall_app. split; [exact GF|].
      repeat constructor. exists x. repeat split; assumption.
    + exact GW.
    + exact GL.
  - (* an unbound variable is released *)
    constructor;
      cbn [fst snd push_warning allocations frees leaks warnings];
      try assumption.
    apply Forall_app. split; [exact GW|]. repeat constructor.
Qed.

Lemma Good_initial : Good (JsMap.empty, 0%Z, newAnalysis).
Proof.
  constructor; cbn; try (intros p; reflexivity); repeat constructor.
Qed.

Lemma processNode_Good now code st node :
  Good (view st) -> Good (view (processNode now code st node)).
Proof.
  destruct st as [this an]. intros G. unfold_processNode.
  destruct (n_type node).
  - match goal with
    | |- context [handleAllocation ?a (?t, ?s)] =>
        pose proof (handleAllocation_astep a t s (good_struct _ G)) as H;
        apply (astep_Good _ _ G) in H;
        destruct (handleAllocation a (t, s))
    end. exact H.
  - match goal with
    | |- context [handleFree ?f (?t, ?s)] =>
        pose proof (handleFree_astep f t s (good_struct _ G)) as H;
        apply (astep_Good _ _ G) in H;
        destruct (handleFree f (t, s))
    end. exact H.
Qed.

Lemma processNodes_Good now code ns st :
  Good (view st) -> Good (view (processNodes now code st ns)).
Proof.
  unfold processNodes. revert st.
  induction ns as [|n ns IH]; intros st G; simpl.
  - exact G.
  - apply IH. now apply processNode_Good.
Qed.

(** The run of [analyze] on a fresh instance, for a non-empty text. *)
Lemma analyzeSource_run acorn now language text :
  Js.is_empty text = false ->
  analyzeSource acorn now (InString text) language
  = (Returns
       (findLeaks
          (fst (processNodes now text
                  (newMemoryAnalyzer acorn language, newAnalysis)
                  (body (parse acorn language text))))
          (scanLines 0 (Js.split_lines text)
             (snd (processNodes now text
                     (newMemoryAnalyzer acorn language, newAnalysis)
                     (body (parse acorn language text)))))),
     fst (processNodes now text
            (newMemoryAnalyzer acorn language, newAnalysis)
            (body (parse acorn language text)))).
Proof.
  intros Hne. unfold analyzeSource, analyze. rewrite Hne.
  cbn [this_astParser newMemoryAnalyzer].
  now destruct (processNodes _ _ _ _).
Qed.

Lemma Good_run acorn now language text :
  Good (view (processNodes now text
                (newMemoryAnalyzer acorn language, newAnalysis)
                (body (parse acorn language text)))).
Proof. apply processNodes_Good. exact Good_initial. Qed.

Lemma liveLeaks_count p (m : JsMap.t (list Alloc)) an :
  Struct m ->
  Forall (fun e => Js.is_empty (fst e) = false
                   /\ Forall (fun x => a_var x = fst e
                                       /\ In x (allocations an)) (snd e)) m ->
  countBy l_var p (liveLeaks m) = countBy fst p m.
Proof.
  intros [_ HS] HK. induction m as [|[k l] m IH]; [reflexivity|].
  inversion HS as [|e es [x Hx] HS']; subst.
  inversion HK as [|e es [Hk _] HK']; subst. cbn [fst snd] in *. subst l.
  cbn [liveLeaks map app]. rewrite !countBy_cons, IH by assumption.
  cbn [l_var leakOf fst]. unfold str_or. now rewrite Hk.
Qed.


Lemma result_count acorn now language text p :
  countBy a_var p (allocations (resultOf acorn now language text))
  = countBy fe_var p (frees (resultOf acorn now language text))
    + countBy l_var p (leaks (resultOf acorn now language text)).
Proof.
  unfold resultOf, finalState.
  pose proof (Good_run acorn now language text) as G.
  destruct (processNodes _ _ _ _) as [this1 an1].
  destruct G as [GS GK _ GC _ _ _]. cbn [fst snd view] in *.
  destruct (scanLines_frame (Js.split_lines text) 0 an1) as (A & B & C & _).
  cbn zeta in A, B, C. cbn [findLeaks allocations frees leaks].
  rewrite A, B, C, countBy_app, (liveLeaks_count p _ an1), GC by assumption.
  lia.
Qed.

(** X1. In the result of a source, for every set of variable names (every
    single name included), the allocations of these variables are as many
    as their frees and their leaks together: each recorded allocation is
    freed once or reported as a leak once. *)
Theorem X1_stack_discipline :
  forall acorn (now : nat -> N) (language text : string)
         (p : string -> bool),
    Js.is_empty text = false ->
    exists r,
      fst (analyzeSource acorn now (InString text) language) = Returns r
      /\ countBy a_var p (allocations r)
         = countBy fe_var p (frees r) + countBy l_var p (leaks r).
Proof.
  intros acorn now language text p Hne.
  rewrite analyzeSource_run by assumption.
  eexists. split; [reflexivity|].
  exact (result_count acorn now language text p).
Qed.

Lemma X1_witness :
  exists r,
    fst (analyzeSource None clock0 (InString doubleFreeThreeLines) "c") = Returns r
    /\ countBy a_var (String.eqb "p") (allocations r)
       = countBy fe_var (String.eqb "p") (frees r)
         + countBy l_var (String.eqb "p") (leaks r).
Proof.
  apply (X1_stack_discipline None clock0 "c" doubleFreeThreeLines (String.eqb "p")).
  reflexivity.
Defined.


(** X2. Every entry of [frees] carries the id of an allocation that is in
    [allocations], of the same variable. *)
Theorem X2_frees_reference_allocations :
  forall acorn (now : nat -> N) (language text : string),
    Js.is_empty text = false ->
    exists r,
      fst (analyzeSource acorn now (InString text) language) = Returns r
      /\ Forall (fun f => exists a, In a (allocations r)
                                    /\ a_allocId a = fe_freedAllocId f
                                    /\ a_var a = fe_var f)
           (frees r).
Proof.
  intros acorn now language text Hne.
  rewrite analyzeSource_run by assumption.
  eexists. split; [reflexivity|].
  pose proof (Good_run acorn now language text) as G.
  destruct (processNodes _ _ _ _) as [this1 an1].
  destruct G as [_ _ _ _ GF _ _]. cbn [fst snd view] in *.
  destruct (scanLines_frame (Js.split_lines text) 0 an1) as (A & B & _).
  cbn zeta in A, B. cbn [findLeaks allocations frees].
  now rewrite A, B.
Qed.

Lemma X2_witness :
  exists r,
    fst (analyzeSource None clock0 (InString doubleFreeThreeLines) "c") = Returns r
    /\ Forall (fun f => exists a, In a (allocations r)
                                  /\ a_allocId a = fe_freedAllocId f
                                  /\ a_var a = fe_var f)
         (frees r).
Proof.
  apply (X2_frees_reference_allocations None clock0 "c" doubleFreeThreeLines).
  reflexivity.
Defined.


(** X3. From a fresh instance every warning of the result is of type
    "Potential Double Free" or "Unsafe Function": the "Double Free" case of
    [handleFree] is never taken, because a variable whose stack runs empty
    leaves the map. *)
Theorem X3_warning_types :
  forall acorn (now : nat -> N) (language text : string),
    Js.is_empty text = false ->
    exists r,
      fst (analyzeSource acorn now (InString text) language) = Returns r
      /\ Forall (fun x => w_type x = "Potential Double Free"
                          \/ w_type x = "Unsafe Function")
           (warnings r).
Proof.
  intros acorn now language text Hne.
  rewrite analyzeSource_run by assumption.
  eexists. split; [reflexivity|].
  pose proof (Good_run acorn now language text) as G.
  destruct (processNodes _ _ _ _) as [this1 an1].
  destruct G as [_ _ _ _ _ GW _]. cbn [fst snd view] in *.
  cbn [findLeaks warnings]. rewrite scanLines_warnings.
  apply Forall_app. split.
  - eapply Forall_impl; [|exact GW]. intros x Hx. now left.
  - eapply Forall_impl; [|apply qualityWarnings_unsafe].
    intros x Hx. now right.
Qed.

Lemma X3_witness :
  exists r,
    fst (analyzeSource None clock0 (InString doubleFreeThreeLines) "c") = Returns r
    /\ Forall (fun x => w_type x = "Potential Double Free"
                        \/ w_type x = "Unsafe Function")
         (warnings r).
Proof.
  apply (X3_warning_types None clock0 "c" doubleFreeThreeLines).
  reflexivity.
Defined.


(** X4. The "Unsafe Function" warnings of the result are, in line order,
    one warning per raw line that calls strcpy without strncpy, with the
    1-based number of the line and its trimmed text; they come after the
    warnings of the tracker. *)
Theorem X4_quality_warnings :
  forall acorn (now : nat -> N) (language text : string),
    Js.is_empty text = false ->
    exists r,
      fst (analyzeSource acorn now (InString text) language) = Returns r
      /\ filter isUnsafeFunction (warnings r)
         = qualityWarnings 0 (Js.split_lines text)
      /\ exists before,
           warnings r = app before (qualityWarnings 0 (Js.split_lines text)).
Proof.
  intros acorn now language text Hne.
  rewrite analyzeSource_run by assumption.
  eexists. split; [reflexivity|].
  pose proof (Good_run acorn now language text) as G.
  destruct (processNodes _ _ _ _) as [this1 an1].
  destruct G as [_ _ _ _ _ GW _]. cbn [fst snd view] in *.
  cbn [findLeaks warnings]. rewrite scanLines_warnings. split.
  - rewrite filter_app, filter_all_false, filter_all_true.
    + reflexivity.
    + eapply Forall_impl; [|apply qualityWarnings_unsafe].
      intros x Hx. unfold isUnsafeFunction. now rewrite Hx.
    + eapply Forall_impl; [|exact GW].
      intros x Hx. unfold isUnsafeFunction. now rewrite Hx.
  - now exists (warnings an1).
Qed.

Lemma X4_witness :
  exists r,
    fst (analyzeSource None clock0 (InString twoCopies) "c") = Returns r
    /\ filter isUnsafeFunction (warnings r)
       = qualityWarnings 0 (Js.split_lines twoCopies)
    /\ exists before,
         warnings r = app before (qualityWarnings 0 (Js.split_lines twoCopies)).
Proof.
  apply (X4_quality_warnings None clock0 "c" twoCopies).
  reflexivity.
Defined.


Lemma fold_left_sizes (ls : list Leak) (z : Z) :
  fold_left (fun sum leak => (sum + l_size leak)%Z) ls z
  = (z + sumZ (map l_size ls))%Z.
Proof.
  revert z. induction ls as [|l ls IH]; intros z; simpl; [lia|].
  rewrite IH. lia.
Qed.





Lemma handleAllocation_pushes alloc this an :
  allocations (snd (handleAllocation alloc (this, an)))
  = app (allocations an)
        (if Js.is_empty (a_var alloc) then [] else [alloc]).
Proof.
  destruct (Js.is_empty (a_var alloc)) eqn:Hvar.
  - unfold handleAllocation. rewrite Hvar. cbn. now rewrite app_nil_r.
  - rewrite handleAllocation_analysis by assumption.
    repeat break_match; reflexivity.
Qed.

Lemma processNode_allocations now code this an node :
  this_language (fst (processNode now code (this, an) node))
    = this_language this
  /\ allocations (snd (processNode now code (this, an) node))
     = app (allocations an)
           (if isNamedAllocation node
            then [fst (processASTAllocation now this node code)] else []).
Proof.
  unfold isNamedAllocation. unfold_processNode.
  destruct (n_type node).
  - match goal with
    | |- context [handleAllocation ?a (?t, ?s)] =>
        pose proof (handleAllocation_frame a t s) as HF;
        pose proof (handleAllocation_pushes a t s) as HP;
        destruct (handleAllocation a (t, s)) as [t' s']
    end.
    cbn [fst snd] in *. destruct HF as (_ & _ & HL & _).
    split; [exact HL|]. rewrite HP. cbn [a_var].
    now destruct (Js.is_empty (n_var node)).
  - match goal with
    | |- context [handleFree ?f (?t, ?s)] =>
        pose proof (handleFree_frame f t s) as HF;
        destruct (handleFree f (t, s)) as [t' s']
    end.
    cbn [fst snd] in *. destruct HF as (_ & _ & HL & _ & HA & _).
    split; [exact HL|]. rewrite HA. now rewrite app_nil_r.
Qed.

Lemma processNodes_allocations now code this0 ns st :
  this_language (fst st) = this_language this0 ->
  map eraseAllocId (allocations (snd (processNodes now code st ns)))
  = app (map eraseAllocId (allocations (snd st)))
        (map (fun n =>
                eraseAllocId (fst (processASTAllocation now this0 n code)))
           (filter isNamedAllocation ns)).
Proof.
  unfold processNodes. revert st.
  induction ns as [|n ns IH]; intros [this an] HL; cbn [fold_left filter map].
  - now rewrite app_nil_r.
  - destruct (processNode_allocations now code this an n) as [HL' HA].
    rewrite IH by (rewrite HL'; exact HL).
    rewrite HA, map_app, <- app_assoc. f_equal. cbn [fst snd] in HL.
    destruct (isNamedAllocation n); [|reflexivity].
    cbn [map app]. f_equal.
    unfold processASTAllocation, eraseAllocId. cbn. now rewrite HL.
Qed.

Lemma result_allocations acorn now language text :
  map eraseAllocId (allocations (resultOf acorn now language text))
  = map (fun n =>
           eraseAllocId
             (fst (processASTAllocation now
                     (newMemoryAnalyzer acorn language) n text)))
      (filter isNamedAllocation (body (parse acorn language text))).
Proof.
  unfold resultOf, finalState.
  pose proof (processNodes_allocations now text
                (newMemoryAnalyzer acorn language)
                (body (parse acorn language text))
                (newMemoryAnalyzer acorn language, newAnalysis) eq_refl) as H.
  destruct (processNodes _ _ _ _) as [this1 an1]. cbn [fst snd] in *.
  destruct (scanLines_frame (Js.split_lines text) 0 an1) as (A & _).
  cbn zeta in A. cbn [findLeaks allocations]. now rewrite A, H.
Qed.

(** X6. The [allocations] of the result are, in document order, the records
    of the Allocation events that carry a variable name, whether they are
    freed or leaked later on. *)
Theorem X6_allocations_in_event_order :
  forall acorn (now : nat -> N) (language text : string),
    Js.is_empty text = false ->
    exists r,
      fst (analyzeSource acorn now (InString text) language) = Returns r
      /\ map eraseAllocId (allocations r)
         = map (fun n =>
                  eraseAllocId
                    (fst (processASTAllocation now
                            (newMemoryAnalyzer acorn language) n text)))
             (filter isNamedAllocation (body (parse acorn language text))).
Proof.
  intros acorn now language text Hne.
  rewrite analyzeSource_run by assumption.
  eexists. split; [reflexivity|].
  exact (result_allocations acorn now language text).
Qed.

Lemma X6_witness :
  exists r,
    fst (analyzeSource None clock0 (InString reassignTwoLines) "c")
      = Returns r
    /\ map eraseAllocId (allocations r)
       = map (fun n =>
                eraseAllocId
                  (fst (processASTAllocation clock0
                          (newMemoryAnalyzer None "c") n reassignTwoLines)))
           (filter isNamedAllocation
              (body (parse None "c" reassignTwoLines))).
Proof.
  apply (X6_allocations_in_event_order None clock0 "c" reassignTwoLines).
  reflexivity.
Defined.


(* --------------------------------------------------------------------- *)
(** *** The line scanner *)

Lemma parseCAllocation_node line lineNum originalLine functionName inLoop a :
  parseCAllocation line lineNum originalLine functionName inLoop = Some a ->
  n_type a = Allocation /\ n_line a = lineNum.
Proof.
  unfold parseCAllocation.
  destruct (first_match patterns line);
    [|destruct (first_match cppPatterns line)];
    intros [= <-]; split; reflexivity.
Qed.

Lemma parseCDeallocation_node line lineNum originalLine d :
  parseCDeallocation line lineNum originalLine = Some d ->
  n_type d = Deallocation /\ n_line d = lineNum.
Proof.
  unfold parseCDeallocation.
  repeat break_match; intros [= <-]; split; reflexivity.
Qed.

(** A line is blank, continues a statement, or ends one. *)
Lemma parseC_line_cases st index line :
  let st' := parseC_line st index line in
  (nodes st' = nodes st /\ inStatement st' = inStatement st
   /\ statementStartLine st' = statementStartLine st)
  \/ (nodes st' = nodes st /\ inStatement st' = true
      /\ statementStartLine st'
         = if inStatement st then statementStartLine st else index + 1)
  \/ (exists oa od,
        nodes st' = push_opt (push_opt (nodes st) oa) od
        /\ inStatement st' = false
        /\ (forall a, oa = Some a ->
              n_type a = Allocation /\ n_line a = statementLine st index)
        /\ (forall d, od = Some d ->
              n_type d = Deallocation /\ n_line d = statementLine st index)).
Proof.
  cbv zeta. unfold parseC_line.
  destruct (Js.is_empty (Js.trim line)).
  - left. destruct (inStatement st) eqn:E; cbn; auto.
  - match goal with
    | |- context [if ?c then _ else _] => destruct c
    end.
    + right. left. destruct (inStatement st) eqn:E; cbn; auto.
    + right. right.
      match goal with
      | |- context [push_opt (push_opt (nodes st) ?oa) ?od] =>
          exists oa, od
      end.
      cbn [nodes inStatement]. split; [reflexivity|]. split; [reflexivity|].
      unfold statementLine. split.
      * intros a Ha. now apply parseCAllocation_node in Ha.
      * intros d Hd. now apply parseCDeallocation_node in Hd.
Qed.

Lemma StronglySorted_snoc {A : Type} (R : A -> A -> Prop) (l : list A) x :
  StronglySorted R l -> Forall (fun y => R y x) l ->
  StronglySorted R (app l [x]).
Proof.
  induction 1 as [|y l S IH F]; intros H; cbn.
  - repeat constructor.
  - inversion H; subst. constructor; [now apply IH|].
    apply Forall_app. split; [exact F|]. now repeat constructor.
Qed.

(** Appending an event of line [L] after events of smaller lines. *)
Lemma ScanInv_push (ns : list ASTNode) (L index : nat) (o : option ASTNode) :
  1 <= L <= index ->
  Forall (fun n => n_line n <= L) ns ->
  Forall (fun n => n_line n < L
                   \/ (n_line n = L /\ forall a, o = Some a ->
                                        n_type a <> n_type n)) ns ->
  (forall a, o = Some a -> n_line a = L) ->
  Forall (fun n => 1 <= n_line n <= index) ns ->
  StronglySorted le (map n_line ns) ->
  StronglySorted lt (map n_line (filter isAllocationNode ns)) ->
  StronglySorted lt (map n_line (filter isDeallocationNode ns)) ->
  Forall (fun n => 1 <= n_line n <= index) (push_opt ns o)
  /\ StronglySorted le (map n_line (push_opt ns o))
  /\ StronglySorted lt (map n_line (filter isAllocationNode (push_opt ns o)))
  /\ StronglySorted lt
       (map n_line (filter isDeallocationNode (push_opt ns o))).
Proof.
  intros HL Hle Hlt Ho HB HS HA HD. destruct o as [a|]; cbn [push_opt];
    [|now repeat split].
  specialize (Ho a eq_refl).
  assert (Hfilter : forall f : ASTNode -> bool,
             (forall n, f n = true -> n_type n = n_type a) ->
             Forall (fun y => y < n_line a) (map n_line (filter f ns))).
  { intros f Hf. apply Forall_map. apply Forall_forall.
    intros n I. apply filter_In in I. destruct I as [I Fn].
    rewrite Forall_forall in Hlt. destruct (Hlt n I) as [H|[_ H]]; [lia|].
    exfalso. apply (H a eq_refl). symmetry. now apply Hf. }
  split; [|split; [|split]].
  - apply Forall_app. split; [exact HB|].
    constructor; [|constructor]. lia.
  - rewrite map_app. apply StronglySorted_snoc; [exact HS|].
    apply Forall_map. eapply Forall_impl; [|exact Hle].
    intros n Hn. cbn beta in *. lia.
  - rewrite filter_app. cbn [filter]. unfold isAllocationNode at 2.
    destruct (n_type a) eqn:Ta; [|now rewrite app_nil_r].
    rewrite map_app. apply StronglySorted_snoc; [exact HA|].
    apply Hfilter. intros n Hn. unfold isAllocationNode in Hn.
    now destruct (n_type n).
  - rewrite filter_app. cbn [filter]. unfold isDeallocationNode at 2.
    destruct (n_type a) eqn:Ta; [now rewrite app_nil_r|].
    rewrite map_app. apply StronglySorted_snoc; [exact HD|].
    apply Hfilter. intros n Hn. unfold isDeallocationNode in Hn.
    now destruct (n_type n).
Qed.

Lemma parseC_line_ScanInv st index line :
  ScanInv index st -> ScanInv (S index) (parseC_line st index line).
Proof.
  intros [HB HO HS HA HD].
  assert (HB' : Forall (fun n => 1 <= n_line n <= S index) (nodes st)).
  { eapply Forall_impl; [|exact HB]. intros n Hn. cbn beta in *. lia. }
  destruct (parseC_line_cases st index line)
    as [(En & Ei & Es)|[(En & Ei & Es)|(oa & od & En & Ei & Ha & Hd)]].
  - constructor; rewrite ?En, ?Es; try assumption.
    rewrite Ei. intros H. destruct (HO H) as [H1 H2]. split; [lia|exact H2].
  - constructor; rewrite ?En, ?Es; try assumption.
    intros _. destruct (inStatement st) eqn:E.
    + destruct (HO eq_refl) as [H1 H2]. split; [lia|exact H2].
    + split; [lia|]. eapply Forall_impl; [|exact HB].
      intros n Hn. cbn beta in *. lia.
  - set (L := statementLine st index) in *.
    assert (HL : 1 <= L <= S index
                 /\ Forall (fun n => n_line n < L) (nodes st)).
    { unfold L, statementLine, nat_or. destruct (inStatement st) eqn:E.
      - destruct (HO eq_refl) as [H1 H2].
        destruct (statementStartLine st =? 0) eqn:Z;
          [apply Nat.eqb_eq in Z; lia|].
        split; [lia|exact H2].
      - split; [lia|]. eapply Forall_impl; [|exact HB].
        intros n Hn. cbn beta in *. lia. }
    destruct HL as [HL Hlt].
    destruct (ScanInv_push (nodes st) L (S index) oa) as (B1 & S1 & A1 & D1);
      try assumption.
    { eapply Forall_impl; [|exact Hlt]. intros n Hn. cbn beta in *. lia. }
    { eapply Forall_impl; [|exact Hlt]. intros n Hn. now left. }
    { intros a E. now apply Ha. }
    destruct (ScanInv_push (push_opt (nodes st) oa) L (S index) od)
      as (B2 & S2 & A2 & D2); try assumption.
    { destruct oa as [a|]; cbn [push_opt].
      - apply Forall_app. split.
        + eapply Forall_impl; [|exact Hlt]. intros n Hn. cbn beta in *. lia.
        + constructor; [|constructor].
          destruct (Ha a eq_refl) as [_ E]. cbn beta. lia.
      - eapply Forall_impl; [|exact Hlt]. intros n Hn. cbn beta in *. lia. }
    { destruct oa as [a|]; cbn [push_opt].
      - apply Forall_app. split.
        + eapply Forall_impl; [|exact Hlt]. intros n Hn. now left.
        + constructor; [|constructor]. right.
          destruct (Ha a eq_refl) as [Ta E].
          split; [exact E|]. intros d Ed. destruct (Hd d Ed) as [Td _].
          congruence.
      - eapply Forall_impl; [|exact Hlt]. intros n Hn. now left. }
    { intros d E. now apply Hd. }
    constructor; rewrite ?En; try assumption.
    rewrite Ei. discriminate.
Qed.

Lemma parseC_lines_ScanInv lines index st :
  ScanInv index st ->
  ScanInv (index + length lines) (parseC_lines st index lines).
Proof.
  revert index st. induction lines as [|l lines IH]; intros index st H; cbn.
  - now rewrite Nat.add_0_r.
  - replace (index + S (length lines)) with (S index + length lines) by lia.
    apply IH. now apply parseC_line_ScanInv.
Qed.

(** X7. The events of [parseC] carry line numbers between 1 and the number
    of lines, in non-decreasing order, and no two Allocation events and no
    two Deallocation events share a line: a line yields at most one event
    of each kind. *)
Theorem X7_line_scanner_events :
  forall code : string,
    Forall (fun n => 1 <= n_line n <= length (Js.split_lines code))
      (body (parseC code))
    /\ StronglySorted le (map n_line (body (parseC code)))
    /\ StronglySorted lt
         (map n_line (filter isAllocationNode (body (parseC code))))
    /\ StronglySorted lt
         (map n_line (filter isDeallocationNode (body (parseC code)))).
Proof.
  intros code.
  assert (H0 : ScanInv 0 initPState).
  { constructor; cbn; try constructor; discriminate. }
  apply (parseC_lines_ScanInv (Js.split_lines code)) in H0.
  destruct H0 as [HB _ HS HA HD]. cbn [body parseC]. now repeat split.
Qed.

(* --------------------------------------------------------------------- *)
(** *** The matcher finds matches of the pattern *)

Lemma rmatch_sound r :
  forall st k res,
    Regex.rmatch r st k = Some res ->
    exists st', matches r st st' /\ k st' = Some res.
Proof.
  induction r as [| c | p | r1 IH1 r2 IH2 | r1 IH1 r2 IH2 | g r IH | i r IH | | ];
    intros st k res H.
  - exists st. split; [constructor|exact H].
  - destruct st as [prev rest caps]. cbn in H.
    destruct rest as [|c' rest]; [discriminate|].
    destruct (Ascii.eqb_spec c c') as [<-|]; [|discriminate].
    eexists. split; [constructor|exact H].
  - destruct st as [prev rest caps]. cbn in H.
    destruct rest as [|c' rest]; [discriminate|].
    destruct (p c') eqn:E; [|discriminate].
    eexists. split; [now constructor|exact H].
  - cbn [Regex.rmatch] in H. apply IH1 in H. destruct H as (st1 & M1 & H).
    apply IH2 in H. destruct H as (st2 & M2 & H).
    exists st2. split; [now apply M_Seq with st1|exact H].
  - cbn [Regex.rmatch] in H.
    destruct (Regex.rmatch r1 st k) as [res1|] eqn:E1.
    + injection H as <-. apply IH1 in E1. destruct E1 as (st' & M & K).
      exists st'. split; [now apply M_AltL|exact K].
    + apply IH2 in H. destruct H as (st' & M & K).
      exists st'. split; [now apply M_AltR|exact K].
  - set (loop :=
           fix loop (n : nat) (st0 : Regex.mstate) {struct n}
               : option Regex.mstate :=
             match n with
             | O => k st0
             | S n' =>
                 let iter :=
                   Regex.rmatch r st0 (fun st1 =>
                     if String.length (Regex.ms_rest st1)
                        =? String.length (Regex.ms_rest st0)
                     then None else loop n' st1) in
                 if g then
                   match iter with Some res => Some res | None => k st0 end
                 else
                   match k st0 with Some res => Some res | None => iter end
             end).
    change (Regex.rmatch (Regex.Star g r) st k)
      with (loop (S (String.length (Regex.ms_rest st))) st) in H.
    revert H. generalize (S (String.length (Regex.ms_rest st))).
    intros n. revert st res. induction n as [|n IHn]; intros st res H.
    + exists st. split; [constructor|exact H].
    + change (loop (S n) st)
        with (if g then
                match Regex.rmatch r st (fun st1 =>
                        if String.length (Regex.ms_rest st1)
                           =? String.length (Regex.ms_rest st)
                        then None else loop n st1)
                with Some res => Some res | None => k st end
              else
                match k st with
                | Some res => Some res
                | None =>
                    Regex.rmatch r st (fun st1 =>
                      if String.length (Regex.ms_rest st1)
                         =? String.length (Regex.ms_rest st)
                      then None else loop n st1)
                end) in H.
      assert (Hit : forall res',
                 Regex.rmatch r st (fun st1 =>
                   if String.length (Regex.ms_rest st1)
                      =? String.length (Regex.ms_rest st)
                   then None else loop n st1) = Some res' ->
                 exists st', matches (Regex.Star g r) st st'
                             /\ k st' = Some res').
      { intros res' Hit. apply IH in Hit. destruct Hit as (st1 & M1 & H1).
        destruct (String.length (Regex.ms_rest st1)
                  =? String.length (Regex.ms_rest st)); [discriminate|].
        apply IHn in H1. destruct H1 as (st2 & M2 & H2).
        exists st2. split; [now apply M_StarCons with st1|exact H2]. }
      destruct g.
      * destruct (Regex.rmatch r st _) as [res1|] eqn:E.
        -- injection H as <-. now apply Hit.
        -- exists st. split; [constructor|exact H].
      * destruct (k st) as [res1|] eqn:E.
        -- injection H as <-. exists st. split; [constructor|exact E].
        -- now apply Hit.
  - cbn [Regex.rmatch] in H. apply IH in H. destruct H as (st' & M & K).
    eexists. split; [apply M_Grp; exact M|exact K].
  - cbn [Regex.rmatch] in H. destruct (xorb _ _) eqn:E; [|discriminate].
    exists st. split; [now constructor|exact H].
  - cbn [Regex.rmatch] in H.
    exists st. split; [|destruct (Regex.ms_rest st) as [|c rest];
                         [exact H|destruct (Js.is_line_terminator c);
                                   [exact H|discriminate]]].
    constructor. destruct (Regex.ms_rest st) as [|c rest]; [exact I|].
    destruct (Js.is_line_terminator c); [reflexivity|discriminate].
Qed.

Lemma take_app_length t rest :
  Regex.take (String.length (t ++ rest) - String.length rest) (t ++ rest) = t.
Proof.
  induction t as [|c t IH]; cbn [append String.length].
  - rewrite Nat.sub_diag. now destruct rest.
  - assert (E : String.length (t ++ rest) >= String.length rest).
    { clear. induction t; cbn; lia. }
    replace (S (String.length (t ++ rest)) - String.length rest)
      with (S (String.length (t ++ rest) - String.length rest)) by lia.
    cbn [Regex.take]. now rewrite IH.
Qed.

Lemma consumed_app t rest : Regex.consumed (t ++ rest) rest = t.
Proof. apply take_app_length. Qed.

Lemma append_assoc (a b c : string) : (a ++ b) ++ c = a ++ (b ++ c).
Proof. induction a; cbn; congruence. Qed.

(** A match consumes a prefix of the text. *)
Lemma matches_rest r st st' :
  matches r st st' ->
  exists t, Regex.ms_rest st = t ++ Regex.ms_rest st'.
Proof.
  induction 1; cbn [Regex.ms_rest] in *;
    try (now exists EmptyString);
    try (now exists (String c EmptyString));
    try assumption.
  - destruct IHmatches1 as [t1 E1], IHmatches2 as [t2 E2].
    exists (t1 ++ t2). now rewrite E1, E2, append_assoc.
  - destruct IHmatches1 as [t1 E1], IHmatches2 as [t2 E2].
    exists (t1 ++ t2). now rewrite E1, E2, append_assoc.
Qed.

Lemma matches_silent i r st st' :
  matches r st st' -> silent i r = true ->
  Regex.assoc i (Regex.ms_caps st') = Regex.assoc i (Regex.ms_caps st).
Proof.
  induction 1; cbn [silent Regex.ms_caps]; intros S;
    try reflexivity;
    try (apply andb_prop in S; destruct S as [S1 S2]).
  - now rewrite IHmatches2, IHmatches1.
  - now apply IHmatches.
  - now apply IHmatches.
  - rewrite IHmatches2, IHmatches1; [reflexivity|assumption|exact S].
  - cbn [Regex.assoc]. apply negb_true_iff in S1. rewrite S1.
    now apply IHmatches.
Qed.

Lemma captures_sound i P r st st' :
  matches r st st' -> captures i P r ->
  exists t, Regex.assoc i (Regex.ms_caps st') = Some t /\ P t.
Proof.
  induction 1; cbn [captures]; intros C; try contradiction.
  - destruct C as [C|[C S]].
    + now apply IHmatches2.
    + destruct (IHmatches1 C) as (t & A & Pt). exists t.
      split; [|exact Pt]. now rewrite (matches_silent i r2 st1 st2).
  - destruct C as [C _]. now apply IHmatches.
  - destruct C as [_ C]. now apply IHmatches.
  - cbn [Regex.ms_caps Regex.assoc]. destruct (i =? i0) eqn:E.
    + eexists. split; [reflexivity|]. now apply C.
    + now apply IHmatches.
Qed.

Lemma allChars_app p t1 t2 :
  allChars p t1 -> allChars p t2 -> allChars p (t1 ++ t2).
Proof. induction t1; cbn; tauto. Qed.

Lemma matches_star_cls g p st st' :
  matches (Regex.Star g (Regex.Cls p)) st st' ->
  exists t, allChars p t /\ Regex.ms_rest st = t ++ Regex.ms_rest st'.
Proof.
  remember (Regex.Star g (Regex.Cls p)) as r eqn:Er.
  induction 1; try discriminate.
  - now exists EmptyString.
  - injection Er as -> ->. destruct (IHmatches2 eq_refl) as (t2 & A2 & E2).
    inversion H; subst. cbn [Regex.ms_rest] in *.
    exists (String c t2). split; [now split|]. now rewrite E2.
Qed.

(** The text that [c+] matches, for a class [c]. *)
Lemma matches_plus_cls p st st' :
  matches (Regex.Plus (Regex.Cls p)) st st' ->
  wordOf p (Regex.consumed (Regex.ms_rest st) (Regex.ms_rest st')).
Proof.
  unfold Regex.Plus. intros H. inversion H; subst.
  match goal with M : matches (Regex.Cls p) _ _ |- _ => inversion M; subst end.
  match goal with
  | M : matches (Regex.Star _ _) _ _ |- _ =>
      apply matches_star_cls in M; destruct M as (t & A & E)
  end.
  cbn [Regex.ms_rest] in *. rewrite E.
  change (String c (t ++ Regex.ms_rest st'))
    with (String c t ++ Regex.ms_rest st').
  rewrite consumed_app. split; [discriminate|now split].
Qed.

(** What [exec] returns comes from a match of the pattern. *)
Lemma search_from_sound r prev t idx m :
  Regex.search_from r prev t idx = Some m ->
  exists st st',
    matches r st st' /\ Regex.ms_caps st = []
    /\ Regex.m_caps m = Regex.ms_caps st'
    /\ (exists before, t = before ++ Regex.ms_rest st).
Proof.
  revert prev idx. induction t as [|c t IH]; intros prev idx;
    cbn [Regex.search_from].
  - destruct (Regex.rmatch r _ Some) as [st'|] eqn:E; [|discriminate].
    intros [= <-]. apply rmatch_sound in E.
    destruct E as (st1 & M & [= ->]).
    eexists _, _. repeat split; [exact M|reflexivity|now exists EmptyString].
  - destruct (Regex.rmatch r _ Some) as [st'|] eqn:E.
    + intros [= <-]. apply rmatch_sound in E.
      destruct E as (st1 & M & [= ->]).
      eexists _, _.
      repeat split; [exact M|reflexivity|now exists EmptyString].
    + intros H. apply IH in H.
      destruct H as (st & st' & M & C0 & C & (b & ->)).
      exists st, st'. repeat split; try assumption.
      now exists (String c b).
Qed.

Lemma exec_captures i P r t m :
  Regex.exec r t = Some m -> captures i P r ->
  exists u, Regex.group m i = Some u /\ P u.
Proof.
  intros H C. apply search_from_sound in H.
  destruct H as (st & st' & M & _ & E & _).
  unfold Regex.group. rewrite E. now apply (captures_sound i P r st st').
Qed.

(* --------------------------------------------------------------------- *)
(** *** The captures of the patterns of the line scanner *)

Lemma matches_lit t st st' :
  matches (Regex.Lit t) st st' ->
  Regex.ms_rest st = t ++ Regex.ms_rest st'.
Proof.
  revert st st'. induction t as [|c t IH]; intros st st' H.
  - inversion H; subst. reflexivity.
  - destruct t as [|c' t].
    + cbn in H. inversion H; subst. reflexivity.
    + change (Regex.Lit (String c (String c' t)))
        with (Regex.Seq (Regex.Chr c) (Regex.Lit (String c' t))) in H.
      inversion H as [| | |? ? ? st1 ? M1 M2| | | | | | |]; subst.
      inversion M1; subst. apply IH in M2.
      cbn [Regex.ms_rest] in M2 |- *. now rewrite M2.
Qed.

Lemma matches_allocFns st st' :
  matches allocFns st st' ->
  isAllocFn (Regex.consumed (Regex.ms_rest st) (Regex.ms_rest st')).
Proof.
  unfold allocFns, isAllocFn. cbn [Regex.Alts]. intros H.
  inversion H as [| | | |? ? ? ? M|? ? ? ? M| | | | |]; subst.
  - apply (matches_lit "malloc") in M. rewrite M, consumed_app. now left.
  - inversion M as [| | | |? ? ? ? M'|? ? ? ? M'| | | | |]; subst.
    + apply (matches_lit "calloc") in M'. rewrite M', consumed_app. tauto.
    + apply (matches_lit "realloc") in M'. rewrite M', consumed_app. tauto.
Qed.

Ltac solve_captures leaf :=
  let L := fresh "Leaf" in
  pose proof leaf as L; unfold Regex.Plus in L;
  cbn [captures silent Regex.Seqs Regex.Alts Regex.Lit Regex.Plus Regex.Opt
       Regex.ws Regex.w Regex.s Regex.d Regex.notc Regex.dot Regex.any
       Nat.eqb negb andb allocFns];
  tauto.

Lemma patterns_var :
  Forall (captures 1 (wordOf Js.is_word)) patterns
  /\ Forall (captures 1 (wordOf Js.is_word)) cppPatterns
  /\ Forall (captures 1 (wordOf Js.is_word))
       [freePattern; deleteArrayPattern; deletePattern].
Proof.
  unfold patterns, cppPatterns, freePattern, deleteArrayPattern,
    deletePattern.
  split; [|split];
    repeat (apply Forall_cons; [|try apply Forall_nil]);
    solve_captures (matches_plus_cls Js.is_word).
Qed.

Lemma patterns_function : Forall (captures 2 isAllocFn) patterns.
Proof.
  unfold patterns. repeat (apply Forall_cons; [|try apply Forall_nil]).
  all: pose proof matches_allocFns as Leaf;
    cbn [captures silent Regex.Seqs Regex.Lit Regex.Plus Regex.Opt
         Regex.ws Regex.w Regex.s Regex.d Regex.notc Nat.eqb negb andb];
    tauto.
Qed.

Lemma first_match_In ps line m :
  first_match ps line = Some m ->
  exists p, In p ps /\ Regex.exec p line = Some m.
Proof.
  induction ps as [|p ps IH]; cbn; [discriminate|].
  destruct (Regex.exec p line) as [m'|] eqn:E.
  - intros [= <-]. exists p. split; [now left|exact E].
  - intros H. destruct (IH H) as (q & I & Eq). exists q. split; [now right|exact Eq].
Qed.

Lemma group_or_empty_captures i P ps line m :
  Forall (captures i P) ps ->
  first_match ps line = Some m ->
  P (Regex.group_or_empty m i).
Proof.
  intros HF H. apply first_match_In in H. destruct H as (p & I & E).
  rewrite Forall_forall in HF.
  destruct (exec_captures i P p line m E (HF p I)) as (u & G & Pu).
  unfold Regex.group_or_empty. now rewrite G.
Qed.

Lemma parseCAllocation_shape line lineNum originalLine functionName inLoop a :
  parseCAllocation line lineNum originalLine functionName inLoop = Some a ->
  wordOf Js.is_word (n_var a) /\ knownPrimitive a.
Proof.
  destruct patterns_var as (V1 & V2 & _).
  unfold parseCAllocation.
  destruct (first_match patterns line) as [m|] eqn:E1.
  - intros [= <-]. cbn [n_var]. split.
    + exact (group_or_empty_captures 1 _ _ _ _ V1 E1).
    + unfold knownPrimitive. cbn [n_type n_function].
      destruct (group_or_empty_captures 2 _ _ _ _ patterns_function E1)
        as [-> | [-> | ->]]; cbn; tauto.
  - destruct (first_match cppPatterns line) as [m|] eqn:E2; [|discriminate].
    intros [= <-]. cbn [n_var]. split.
    + exact (group_or_empty_captures 1 _ _ _ _ V2 E2).
    + unfold knownPrimitive. cbn [n_type n_function].
      destruct (Js.includes line "[" && Js.includes line "]"); cbn; tauto.
Qed.

Lemma parseCDeallocation_shape line lineNum originalLine d :
  parseCDeallocation line lineNum originalLine = Some d ->
  wordOf Js.is_word (n_var d) /\ knownPrimitive d.
Proof.
  destruct patterns_var as (_ & _ & V).
  inversion V as [|? ? V1 V']; subst.
  inversion V' as [|? ? V2 V'']; subst.
  inversion V'' as [|? ? V3 _]; subst.
  unfold parseCDeallocation.
  destruct (Regex.exec freePattern line) as [m|] eqn:E1;
    [|destruct (Regex.exec deleteArrayPattern line) as [m|] eqn:E2;
      [|destruct (Regex.exec deletePattern line) as [m|] eqn:E3;
        [|discriminate]]];
    intros [= <-]; cbn [n_var deallocNode]; (split; [|cbn; tauto]).
  - destruct (exec_captures 1 _ _ _ _ E1 V1) as (u & G & Pu).
    unfold Regex.group_or_empty. now rewrite G.
  - destruct (exec_captures 1 _ _ _ _ E2 V2) as (u & G & Pu).
    unfold Regex.group_or_empty. now rewrite G.
  - destruct (exec_captures 1 _ _ _ _ E3 V3) as (u & G & Pu).
    unfold Regex.group_or_empty. now rewrite G.
Qed.

(** Every event of [parseC] is a result of one of the two statement
    parsers. *)
Lemma parseC_line_from (Q : ASTNode -> Prop) st index line :
  (forall s ln ol fn il a, parseCAllocation s ln ol fn il = Some a -> Q a) ->
  (forall s ln ol d, parseCDeallocation s ln ol = Some d -> Q d) ->
  Forall Q (nodes st) -> Forall Q (nodes (parseC_line st index line)).
Proof.
  intros HA HD HQ. unfold parseC_line.
  repeat break_match; cbn [nodes]; try assumption.
  all: unfold push_opt; repeat break_match;
    repeat (apply Forall_app; split); try assumption;
    (constructor; [|constructor]); eauto.
Qed.

Lemma parseC_from (Q : ASTNode -> Prop) code :
  (forall s ln ol fn il a, parseCAllocation s ln ol fn il = Some a -> Q a) ->
  (forall s ln ol d, parseCDeallocation s ln ol = Some d -> Q d) ->
  Forall Q (body (parseC code)).
Proof.
  intros HA HD. cbn [body parseC].
  generalize (Js.split_lines code) 0.
  assert (H0 : Forall Q (nodes initPState)) by constructor.
  revert H0. generalize initPState.
  intros st H0 lines. revert st H0.
  induction lines as [|l lines IH]; intros st H0 index; cbn.
  - exact H0.
  - apply IH. now apply parseC_line_from.
Qed.

(** X8. Every event of [parseC] names a variable by a non-empty word of
    letters, digits and underscores, and its primitive is malloc, calloc,
    realloc, new or new[] for an Allocation and free, delete[] or delete
    for a Deallocation. *)
Theorem X8_event_shape :
  forall code : string,
    Forall (fun n => wordOf Js.is_word (n_var n) /\ knownPrimitive n)
      (body (parseC code)).
Proof.
  intros code. apply parseC_from.
  - intros s ln ol fn il a H. now apply parseCAllocation_shape in H.
  - intros s ln ol d H. now apply parseCDeallocation_shape in H.
Qed.

(* --------------------------------------------------------------------- *)
(** *** Estimated sizes *)

Lemma digits_prefix_nonneg t a :
  (0 <= a)%Z -> allChars Js.is_digit t ->
  exists v, Js.digits_prefix 10 Js.dec_val (Some a) t = Some v /\ (0 <= v)%Z.
Proof.
  revert a. induction t as [|c t IH]; intros a Ha Ht; cbn [Js.digits_prefix].
  - now exists a.
  - destruct Ht as [Hc Ht]. unfold Js.dec_val. rewrite Hc.
    apply IH; [|exact Ht]. unfold Js.digit_val. lia.
Qed.

Lemma trimStart_digit c t :
  Js.is_digit c = true -> Js.trimStart (String c t) = String c t.
Proof.
  intros Hc. cbn [Js.trimStart].
  destruct c as [[|] [|] [|] [|] [|] [|] [|] [|]]; try discriminate Hc;
    reflexivity.
Qed.

Lemma parseInt_digits t :
  wordOf Js.is_digit t ->
  exists v, Js.parseInt t = Some v /\ (0 <= v)%Z.
Proof.
  intros [Hne Ht]. destruct t as [|c t]; [contradiction|].
  destruct Ht as [Hc Ht].
  assert (Hgen : forall t', allChars Js.is_digit t' ->
            exists v, Js.digits_prefix 10 Js.dec_val None (String c t')
                      = Some v /\ (0 <= v)%Z).
  { intros t' Ht'. cbn [Js.digits_prefix]. unfold Js.dec_val. rewrite Hc.
    apply digits_prefix_nonneg; [unfold Js.digit_val; lia|exact Ht']. }
  unfold Js.parseInt. rewrite trimStart_digit by exact Hc.
  destruct c as [[|] [|] [|] [|] [|] [|] [|] [|]]; try discriminate Hc.
  all: try (destruct (Hgen t Ht) as (v & E & Hv); exists v;
            split; [|exact Hv];
            cbn -[Js.digits_prefix Z.mul];
            rewrite E; cbn; now destruct v).
  (* the digit 0: the next character decides on a hexadecimal prefix *)
  destruct t as [|x r].
  - exists 0%Z. split; [reflexivity|lia].
  - destruct (Hgen _ Ht) as (v & E & Hv). exists v. split; [|exact Hv].
    destruct Ht as [Hx Hr].
    destruct x as [[|] [|] [|] [|] [|] [|] [|] [|]]; try discriminate Hx;
      cbn -[Js.digits_prefix Z.mul];
      rewrite E; cbn; now destruct v.
Qed.

Lemma countOf_positive pat args m i :
  Regex.exec pat args = Some m ->
  captures i (wordOf Js.is_digit) pat ->
  (1 <= countOf m i)%Z.
Proof.
  intros E C. destruct (exec_captures i _ pat args m E C) as (u & G & Pu).
  unfold countOf, Regex.group_or_empty, Js.parseInt_or. rewrite G.
  destruct (parseInt_digits u Pu) as (v & -> & Hv).
  destruct (v =? 0)%Z eqn:Z0; [lia|]. apply Z.eqb_neq in Z0. lia.
Qed.

Lemma size_patterns_count :
  captures 1 (wordOf Js.is_digit) callocPattern
  /\ captures 2 (wordOf Js.is_digit) callocPattern
  /\ captures 1 (wordOf Js.is_digit) sizeofPattern1
  /\ captures 1 (wordOf Js.is_digit) sizeofPattern2
  /\ captures 1 (wordOf Js.is_digit) numPattern.
Proof.
  unfold callocPattern, sizeofPattern1, sizeofPattern2, numPattern.
  split; [|split; [|split; [|split]]];
    solve_captures (matches_plus_cls Js.is_digit).
Qed.

Lemma getTypeSize_positive args : (1 <= getTypeSize args)%Z.
Proof.
  unfold getTypeSize, typeSizeOfArgs, CONFIG.TYPE_SIZES.CHAR,
    CONFIG.TYPE_SIZES.INT, CONFIG.TYPE_SIZES.DOUBLE,
    CONFIG.TYPE_SIZES.DEFAULT.
  repeat break_match; lia.
Qed.

Lemma cFamilySize_positive language fn args :
  (1 <= cFamilySize language fn args)%Z.
Proof.
  destruct size_patterns_count as (_ & _ & C1 & C2 & C3).
  pose proof (getTypeSize_positive args) as HT.
  unfold cFamilySize, CONFIG.TYPE_SIZES.DEFAULT.
  destruct (Regex.exec sizeofPattern1 args) as [m1|] eqn:E1.
  { pose proof (countOf_positive _ _ _ 1 E1 C1). nia. }
  destruct (Regex.exec sizeofPattern2 args) as [m2|] eqn:E2.
  { pose proof (countOf_positive _ _ _ 1 E2 C2). nia. }
  destruct (Regex.exec numPattern args) as [m3|] eqn:E3.
  { exact (countOf_positive _ _ _ 1 E3 C3). }
  repeat break_match; lia.
Qed.

Lemma calculateSizeFromAST_positive language node args :
  String.eqb language "c" || String.eqb language "cpp" = true ->
  (1 <= calculateSizeFromAST language node args)%Z.
Proof.
  intros HL. destruct size_patterns_count as (C1 & C2 & _).
  unfold calculateSizeFromAST. rewrite HL.
  destruct (String.eqb (n_function node) "calloc");
    [|apply cFamilySize_positive].
  destruct (Regex.exec callocPattern args) as [m|] eqn:E;
    [|apply cFamilySize_positive].
  pose proof (countOf_positive _ _ _ 1 E C1).
  pose proof (countOf_positive _ _ _ 2 E C2). nia.
Qed.

(* --------------------------------------------------------------------- *)
(** *** Leaks and their allocations *)

Lemma liveLeaks_reference (m : JsMap.t (list Alloc)) (allocs : list Alloc) :
  Forall (fun e => Js.is_empty (fst e) = false
                   /\ Forall (fun x => a_var x = fst e /\ In x allocs)
                        (snd e)) m ->
  Forall (fun l => exists a, In a allocs /\ l_var l = a_var a
                             /\ l_line l = a_line a /\ l_size l = a_size a
                             /\ l_inLoop l = a_inLoop a)
    (liveLeaks m).
Proof.
  induction 1 as [|[k l] m [Hk Hl] _ IH]; cbn [liveLeaks]; [constructor|].
  apply Forall_app. split; [|exact IH]. cbn [fst snd] in *.
  apply Forall_map. eapply Forall_impl; [|exact Hl].
  intros x [Vx Ix]. exists x. split; [exact Ix|].
  cbn [leakOf l_var l_line l_size l_inLoop]. unfold str_or.
  now rewrite Hk, Vx.
Qed.

Lemma result_leaks_reference acorn now language text :
  Forall (fun l => exists a,
            In a (allocations (resultOf acorn now language text))
            /\ l_var l = a_var a /\ l_line l = a_line a
            /\ l_size l = a_size a /\ l_inLoop l = a_inLoop a)
    (leaks (resultOf acorn now language text)).
Proof.
  unfold resultOf, finalState.
  pose proof (Good_run acorn now language text) as G.
  destruct (processNodes _ _ _ _) as [this1 an1].
  destruct G as [_ GK _ _ _ _ GL]. cbn [fst snd view] in *.
  destruct (scanLines_frame (Js.split_lines text) 0 an1) as (A & _ & C & _).
  cbn zeta in A, C. cbn [findLeaks allocations leaks].
  rewrite A, C. apply Forall_app. split; [exact GL|].
  now apply liveLeaks_reference.
Qed.

(** X9. Every leak of the result, by reassignment or at the end, reports
    the variable, line, size and loop flag of an allocation that is in
    [allocations]. *)
Theorem X9_leaks_reference_allocations :
  forall acorn (now : nat -> N) (language text : string),
    Js.is_empty text = false ->
    exists r,
      fst (analyzeSource acorn now (InString text) language) = Returns r
      /\ Forall (fun l => exists a, In a (allocations r)
                                    /\ l_var l = a_var a
                                    /\ l_line l = a_line a
                                    /\ l_size l = a_size a
                                    /\ l_inLoop l = a_inLoop a)
           (leaks r).
Proof.
  intros acorn now language text Hne.
  rewrite analyzeSource_run by assumption.
  eexists. split; [reflexivity|].
  exact (result_leaks_reference acorn now language text).
Qed.

Lemma X9_witness :
  exists r,
    fst (analyzeSource None clock0 (InString reassignTwoLines) "c")
      = Returns r
    /\ Forall (fun l => exists a, In a (allocations r)
                                  /\ l_var l = a_var a
                                  /\ l_line l = a_line a
                                  /\ l_size l = a_size a
                                  /\ l_inLoop l = a_inLoop a)
         (leaks r).
Proof.
  apply (X9_leaks_reference_allocations None clock0 "c" reassignTwoLines).
  reflexivity.
Defined.


(** X10. Under 'c' and 'cpp' every estimated size is at least 1: those of
    the allocations and of the leaks of the result, so that leakedBytes is
    at least the number of leaks. *)
Theorem X10_c_sizes_positive :
  forall acorn (now : nat -> N) (language text : string),
    String.eqb language "c" || String.eqb language "cpp" = true ->
    Js.is_empty text = false ->
    exists r,
      fst (analyzeSource acorn now (InString text) language) = Returns r
      /\ Forall (fun a => (1 <= a_size a)%Z) (allocations r)
      /\ Forall (fun l => (1 <= l_size l)%Z) (leaks r)
      /\ (Z.of_nat (memoryLeaks (statisticsOf r))
          <= leakedBytes (statisticsOf r))%Z.
Proof.
  intros acorn now language text HL Hne.
  pose proof (result_allocations acorn now language text) as Hallocs.
  pose proof (result_leaks_reference acorn now language text) as Hleaks.
  rewrite analyzeSource_run by assumption. cbn [fst].
  change (findLeaks _ _) with (resultOf acorn now language text).
  set (r := resultOf acorn now language text) in *.
  exists r. split; [reflexivity|].
  assert (HA : Forall (fun a => (1 <= a_size a)%Z) (allocations r)).
  { assert (H : Forall (fun a => (1 <= a_size a)%Z)
                  (map eraseAllocId (allocations r))).
    { rewrite Hallocs. apply Forall_map. apply Forall_forall. intros n _.
      cbn [processASTAllocation fst eraseAllocId a_size newMemoryAnalyzer
           this_language].
      now apply calculateSizeFromAST_positive. }
    rewrite Forall_map in H. exact H. }
  assert (HLk : Forall (fun l => (1 <= l_size l)%Z) (leaks r)).
  { eapply Forall_impl; [|exact Hleaks].
    intros l (a & I & _ & _ & -> & _).
    rewrite Forall_forall in HA. now apply HA. }
  split; [exact HA|]. split; [exact HLk|].
  cbn [statisticsOf memoryLeaks leakedBytes]. rewrite fold_left_sizes.
  clear - HLk. unfold sumZ.
  induction HLk as [|l ls Hl _ IH]; cbn [map length fold_right] in *; lia.
Qed.

Lemma X10_witness :
  exists r,
    fst (analyzeSource None clock0 (InString reassignTwoLines) "cpp")
      = Returns r
    /\ Forall (fun a => (1 <= a_size a)%Z) (allocations r)
    /\ Forall (fun l => (1 <= l_size l)%Z) (leaks r)
    /\ (Z.of_nat (memoryLeaks (statisticsOf r))
        <= leakedBytes (statisticsOf r))%Z.
Proof.
  apply (X10_c_sizes_positive None clock0 "cpp" reassignTwoLines).
  - reflexivity.
  - reflexivity.
Defined.


(* --------------------------------------------------------------------- *)
(** *** The languages and the line scanner *)

Lemma parse_line_scanned acorn language text :
  String.eqb language "javascript" = false \/ acorn = None ->
  parse acorn language text = parse acorn "c" text.
Proof.
  intros H. unfold parse. destruct (Js.is_empty text); [reflexivity|].
  change (String.eqb "c" "javascript") with false.
  change (String.eqb "c" "c" || String.eqb "c" "cpp") with true.
  cbv iota.
  destruct (String.eqb language "javascript") eqn:EJ.
  - destruct H as [H| ->]; [discriminate|]. reflexivity.
  - unfold parsePython, parseJava, parseRust, parseGo, parseGeneric.
    repeat break_match; reflexivity.
Qed.

Lemma parse_body_scanned acorn language text :
  String.eqb language "javascript" = false \/ acorn = None ->
  Js.is_empty text = false ->
  body (parse acorn language text) = body (parseC (removeComments text)).
Proof.
  intros H Hne. rewrite parse_line_scanned by assumption.
  unfold parse. now rewrite Hne.
Qed.

(** X11. Every language but 'javascript', and 'javascript' too when acorn
    is undefined, extracts the events that 'c' extracts, and its result is
    the result under 'c' except for the estimated sizes, the language tags
    and the allocation ids. *)
Theorem X11_languages_share_the_scanner :
  forall acorn (now1 now2 : nat -> N) (language : string) (input : JsInput),
    String.eqb language "javascript" = false \/ acorn = None ->
    (forall text, parse acorn language text = parse acorn "c" text)
    /\ mapOutcome eraseResult
         (fst (analyzeSource acorn now1 input language))
       = mapOutcome eraseResult (fst (analyzeSource acorn now2 input "c")).
Proof.
  intros acorn now1 now2 language input HL. split.
  - intros text. now apply parse_line_scanned.
  - unfold analyzeSource, analyze.
    destruct input as [t| | | | |]; try reflexivity.
    destruct (Js.is_empty t); [reflexivity|].
    cbn [this_astParser newMemoryAnalyzer].
    rewrite (parse_line_scanned acorn language t HL).
    assert (HS : Sim (newMemoryAnalyzer acorn language, newAnalysis)
                     (newMemoryAnalyzer acorn "c", newAnalysis))
      by (split; reflexivity).
    apply (processNodes_Sim now1 now2 t (body (parse acorn "c" t))) in HS.
    destruct (processNodes now1 _ _ _) as [t1 n1],
             (processNodes now2 _ _ _) as [t2 n2].
    cbn [fst mapOutcome]. f_equal.
    apply findLeaks_Sim. destruct HS as [Hm Hr]. split; [exact Hm|].
    cbn [snd] in *. now rewrite !scanLines_erase, Hr.
Qed.

Lemma X11_witness :
  (forall text, parse None "python" text = parse None "c" text)
  /\ mapOutcome eraseResult
       (fst (analyzeSource None clock0 (InString plainSource) "python"))
     = mapOutcome eraseResult
         (fst (analyzeSource None clock0 (InString plainSource) "c")).
Proof.
  apply (X11_languages_share_the_scanner None clock0 clock0 "python"
           (InString plainSource)).
  left. reflexivity.
Defined.


(* --------------------------------------------------------------------- *)
(** *** Every event is accounted for *)

Lemma handleFree_counts free this an :
  length (frees (snd (handleFree free (this, an))))
  + length (warnings (snd (handleFree free (this, an))))
  = length (frees an) + length (warnings an)
    + (if Js.is_empty (f_var free) then 0 else 1).
Proof.
  pose proof (handleFree_view free this an) as H.
  unfold view in H. cbn [fst snd] in H.
  apply (f_equal snd) in H. cbn [snd] in H. rewrite H.
  repeat break_match; cbn [snd frees warnings push_warning push_free];
    rewrite ?length_app; cbn [length]; lia.
Qed.

Lemma processNode_deallocations now code st node :
  length (frees (snd (processNode now code st node)))
  + length (warnings (snd (processNode now code st node)))
  = length (frees (snd st)) + length (warnings (snd st))
    + (if isDeallocationNode node && negb (Js.is_empty (n_var node))
       then 1 else 0).
Proof.
  destruct st as [this an]. unfold isDeallocationNode. unfold_processNode.
  destruct (n_type node).
  - match goal with
    | |- context [handleAllocation ?a (?t, ?s)] =>
        pose proof (handleAllocation_frame a t s) as HF;
        destruct (handleAllocation a (t, s)) as [t' s']
    end.
    cbn [fst snd] in *. destruct HF as (_ & _ & _ & _ & HW & HR).
    rewrite HW, HR. cbn. lia.
  - match goal with
    | |- context [handleFree ?f (?t, ?s)] =>
        pose proof (handleFree_counts f t s) as HF;
        destruct (handleFree f (t, s)) as [t' s']
    end.
    cbn [fst snd processASTDeallocation f_var] in *. rewrite HF.
    now destruct (Js.is_empty (n_var node)).
Qed.

Lemma processNodes_deallocations now code ns st :
  length (frees (snd (processNodes now code st ns)))
  + length (warnings (snd (processNodes now code st ns)))
  = length (frees (snd st)) + length (warnings (snd st))
    + length (filter (fun n => isDeallocationNode n
                               && negb (Js.is_empty (n_var n))) ns).
Proof.
  unfold processNodes. revert st.
  induction ns as [|n ns IH]; intros st; cbn [fold_left filter].
  - cbn. lia.
  - rewrite IH, processNode_deallocations.
    destruct (isDeallocationNode n && negb (Js.is_empty (n_var n)));
      cbn [length]; lia.
Qed.

Lemma wordOf_not_empty p t : wordOf p t -> Js.is_empty t = false.
Proof. intros [H _]. destruct t; [contradiction|reflexivity]. Qed.

Lemma filter_ext_Forall {A : Type} (f g : A -> bool) (l : list A) :
  Forall (fun x => f x = g x) l -> filter f l = filter g l.
Proof.
  induction 1 as [|x l Hx _ IH]; [reflexivity|]. cbn. now rewrite Hx, IH.
Qed.

(** X12. With the line scanner every Allocation event is in [allocations],
    and every Deallocation event gives one free entry or one warning of
    [handleFree]. *)
Theorem X12_events_accounted :
  forall acorn (now : nat -> N) (language text : string),
    String.eqb language "javascript" = false \/ acorn = None ->
    Js.is_empty text = false ->
    exists r,
      fst (analyzeSource acorn now (InString text) language) = Returns r
      /\ length (allocations r)
         = length (filter isAllocationNode (body (parse acorn language text)))
      /\ length (frees r) + length (filter isDoubleFree (warnings r))
         = length (filter isDeallocationNode
                     (body (parse acorn language text))).
Proof.
  intros acorn now language text HL Hne.
  assert (Shape : Forall (fun n => wordOf Js.is_word (n_var n)
                                  /\ knownPrimitive n)
                    (body (parse acorn language text))).
  { rewrite (parse_body_scanned acorn language text HL Hne).
    apply parseC_from.
    - intros s ln ol fn il a H. now apply parseCAllocation_shape in H.
    - intros s ln ol d H. now apply parseCDeallocation_shape in H. }
  pose proof (result_allocations acorn now language text) as Hallocs.
  rewrite analyzeSource_run by assumption. cbn [fst].
  eexists. split; [reflexivity|].
  change (findLeaks _ _) with (resultOf acorn now language text). split.
  - apply (f_equal (@length Alloc)) in Hallocs.
    rewrite !length_map in Hallocs. rewrite Hallocs. f_equal.
    apply filter_ext_Forall. eapply Forall_impl; [|exact Shape].
    intros n [Hw _]. unfold isNamedAllocation, isAllocationNode.
    rewrite (wordOf_not_empty _ _ Hw). now destruct (n_type n).
  - unfold resultOf, finalState.
    pose proof (Good_run acorn now language text) as G.
    pose proof (processNodes_deallocations now text
                  (body (parse acorn language text))
                  (newMemoryAnalyzer acorn language, newAnalysis)) as HD.
    destruct (processNodes _ _ _ _) as [this1 an1].
    destruct G as [_ _ _ _ _ GW _]. cbn [fst snd view] in *.
    destruct (scanLines_frame (Js.split_lines text) 0 an1) as (_ & B & _).
    cbn zeta in B. cbn [findLeaks frees warnings].
    rewrite B, scanLines_warnings, filter_app.
    rewrite (filter_all_true isDoubleFree (warnings an1)).
    + rewrite (filter_all_false isDoubleFree (qualityWarnings _ _)).
      * rewrite app_nil_r. cbn [newAnalysis frees warnings length] in HD.
        rewrite HD. cbn [Nat.add]. f_equal.
        apply filter_ext_Forall. eapply Forall_impl; [|exact Shape].
        intros n [Hw _]. rewrite (wordOf_not_empty _ _ Hw).
        now rewrite andb_true_r.
      * eapply Forall_impl; [|apply qualityWarnings_unsafe].
        intros x Hx. unfold isDoubleFree. now rewrite Hx.
    + eapply Forall_impl; [|exact GW].
      intros x Hx. unfold isDoubleFree. rewrite Hx. apply orb_true_r.
Qed.

Lemma X12_witness :
  exists r,
    fst (analyzeSource None clock0 (InString doubleFreeThreeLines) "c") = Returns r
    /\ length (allocations r)
       = length (filter isAllocationNode (body (parse None "c" doubleFreeThreeLines)))
    /\ length (frees r) + length (filter isDoubleFree (warnings r))
       = length (filter isDeallocationNode (body (parse None "c" doubleFreeThreeLines))).
Proof.
  apply (X12_events_accounted None clock0 "c" doubleFreeThreeLines).
  - left. reflexivity.
  - reflexivity.
Defined.





(* --------------------------------------------------------------------- *)
(** *** The comment stripper *)

Lemma Subseq_refl t : Subseq t t.
Proof. induction t; constructor; assumption. Qed.

Lemma Subseq_app t1 u1 t2 u2 :
  Subseq t1 u1 -> Subseq t2 u2 -> Subseq (t1 ++ t2) (u1 ++ u2).
Proof. induction 1; intros H2; cbn; try constructor; auto. Qed.

Lemma Subseq_skip u t v : Subseq t v -> Subseq t (u ++ v).
Proof. intros H. induction u; cbn; [exact H|now constructor]. Qed.

Lemma Subseq_trans t u v : Subseq t u -> Subseq u v -> Subseq t v.
Proof.
  intros H1 H2. revert t H1. induction H2; intros t' H1.
  - exact H1.
  - inversion H1; subst; constructor; auto.
  - constructor. auto.
Qed.

Lemma Subseq_length t u : Subseq t u -> String.length t <= String.length u.
Proof. induction 1; cbn; lia. Qed.

(** A match splits the text in what is before it, the match and the
    rest. *)
Lemma search_from_split r prev t idx m :
  Regex.search_from r prev t idx = Some m ->
  idx <= Regex.m_index m
  /\ t = Regex.take (Regex.m_index m - idx) t
         ++ Regex.m_text m ++ Regex.m_after m.
Proof.
  revert prev idx.
  assert (Here : forall prev t idx st,
             Regex.rmatch r (Regex.MState prev t []) Some = Some st ->
             let m := Regex.MatchResult idx
                        (Regex.consumed t (Regex.ms_rest st))
                        (Regex.ms_rest st) (Regex.ms_caps st) in
             idx <= Regex.m_index m
             /\ t = Regex.take (Regex.m_index m - idx) t
                    ++ Regex.m_text m ++ Regex.m_after m).
  { intros prev t0 idx st E. apply rmatch_sound in E.
    destruct E as (st1 & M & [= ->]). apply matches_rest in M.
    destruct M as (u & Eu). cbn [Regex.ms_rest] in Eu.
    cbn [Regex.m_index Regex.m_text Regex.m_after]. split; [lia|].
    rewrite Nat.sub_diag, Eu, consumed_app. reflexivity. }
  induction t as [|c t IH]; intros prev idx; cbn [Regex.search_from].
  - destruct (Regex.rmatch r _ Some) as [st|] eqn:E; [|discriminate].
    intros [= <-]. now apply Here with (prev := prev).
  - destruct (Regex.rmatch r _ Some) as [st|] eqn:E.
    + intros [= <-]. now apply Here with (prev := prev).
    + intros H. apply IH in H. destruct H as [Hi Ht]. split; [lia|].
      replace (Regex.m_index m - idx) with (S (Regex.m_index m - S idx))
        by lia.
      cbn [Regex.take append]. now rewrite <- Ht.
Qed.

Lemma remove_all_from_Subseq fuel r prev t :
  Subseq (Regex.remove_all_from fuel r prev t) t.
Proof.
  revert prev t. induction fuel as [|fuel IH]; intros prev t;
    cbn [Regex.remove_all_from]; [apply Subseq_refl|].
  destruct (Regex.search_from r prev t 0) as [m|] eqn:E;
    [|apply Subseq_refl].
  apply search_from_split in E. destruct E as [_ E].
  rewrite Nat.sub_0_r in E.
  set (b := Regex.take (Regex.m_index m) t) in *. clearbody b.
  destruct (Regex.m_text m) as [|x xs] eqn:Et.
  - destruct (Regex.m_after m) as [|c rest] eqn:Ea; subst t; cbn [append].
    + replace (b ++ EmptyString) with b
        by (clear; induction b; cbn; congruence).
      apply Subseq_refl.
    + apply Subseq_app; [apply Subseq_refl|]. constructor. apply IH.
  - subst t. apply Subseq_app; [apply Subseq_refl|].
    apply Subseq_skip. apply IH.
Qed.


Lemma allChars_suffix p b t : allChars p (b ++ t) -> allChars p t.
Proof. induction b; cbn; tauto. Qed.

Lemma comment_starts_with_slash r st st' :
  r = lineComment \/ r = blockComment ->
  matches r st st' -> exists u, Regex.ms_rest st = String "/" u.
Proof.
  intros [-> | ->] H;
    inversion H as [| | |? ? ? st1 ? M1 M2| | | | | | |]; subst.
  - apply (matches_lit "//") in M1. rewrite M1. now eexists.
  - apply (matches_lit "/*") in M1. rewrite M1. now eexists.
Qed.

Lemma remove_all_no_slash r t :
  r = lineComment \/ r = blockComment ->
  allChars notSlash t -> Regex.remove_all r t = t.
Proof.
  intros Hr Ht. unfold Regex.remove_all. cbn [Regex.remove_all_from].
  destruct (Regex.search_from r None t 0) as [m|] eqn:E; [|reflexivity].
  exfalso. apply search_from_sound in E.
  destruct E as (st & st' & M & _ & _ & (b & Eb)).
  destruct (comment_starts_with_slash r st st' Hr M) as (u & Eu).
  rewrite Eb, Eu in Ht. apply allChars_suffix in Ht.
  destruct Ht as [H _]. discriminate.
Qed.

(** X14. [removeComments] only deletes characters: its result is the text
    with some characters left out, never longer than the text, and the
    text itself when it holds no slash. *)
Theorem X14_removeComments_only_deletes :
  forall code : string,
    Subseq (removeComments code) code
    /\ String.length (removeComments code) <= String.length code
    /\ (allChars notSlash code -> removeComments code = code).
Proof.
  intros code.
  assert (H : Subseq (removeComments code) code).
  { unfold removeComments, Regex.remove_all.
    eapply Subseq_trans; apply remove_all_from_Subseq. }
  split; [exact H|]. split; [now apply Subseq_length|].
  intros Hs. unfold removeComments.
  rewrite (remove_all_no_slash lineComment) by (auto; now left).
  apply remove_all_no_slash; [now right|exact Hs].
Qed.

Lemma X14_witness : removeComments plainSource = plainSource.
Proof.
  apply (proj2 (proj2 (X14_removeComments_only_deletes plainSource))).
  vm_compute. repeat split.
Defined.


(* --------------------------------------------------------------------- *)
(** *** The clock only reaches the allocation ids *)

Lemma reassignLeak_ids a x :
  reassignLeak a x = reassignLeak (eraseAllocId a) (eraseAllocId x).
Proof. reflexivity. Qed.

Lemma leakOf_ids k a : leakOf k a = leakOf k (eraseAllocId a).
Proof. reflexivity. Qed.

Lemma SimId_get st1 st2 k :
  SimId st1 st2 ->
  option_map (map eraseAllocId) (JsMap.get k (this_allocations (fst st1)))
  = option_map (map eraseAllocId) (JsMap.get k (this_allocations (fst st2))).
Proof.
  intros [H _]. rewrite <- !get_mapValues. now rewrite H.
Qed.

Lemma handleAllocation_SimId a1 a2 st1 st2 :
  SimId st1 st2 -> eraseAllocId a1 = eraseAllocId a2 ->
  SimId (handleAllocation a1 st1) (handleAllocation a2 st2).
Proof.
  intros HS Ha.
  assert (Hv : a_var a1 = a_var a2) by exact (f_equal a_var Ha).
  pose proof (SimId_get st1 st2 (a_var a1) HS) as Hg.
  destruct st1 as [t1 n1], st2 as [t2 n2]. destruct HS as (Hm & Hr & Hl).
  cbn [fst snd] in Hm, Hr, Hl, Hg.
  pose proof (handleAllocation_frame a1 t1 n1) as F1.
  pose proof (handleAllocation_frame a2 t2 n2) as F2.
  cbn zeta in F1, F2.
  destruct F1 as (_ & _ & L1 & _), F2 as (_ & _ & L2 & _).
  destruct (Js.is_empty (a_var a1)) eqn:E1.
  - unfold handleAllocation. rewrite E1. rewrite <- Hv, E1.
    now split; [|split].
  - assert (E2 : Js.is_empty (a_var a2) = false) by now rewrite <- Hv.
    split; [|split; [|now rewrite L1, L2]].
    + rewrite !handleAllocation_allocations by assumption.
      rewrite !set_mapValues, !map_app, <- Hv, Hm. cbn [map]. rewrite Ha.
      do 2 f_equal. rewrite <- Hv in *.
      destruct (JsMap.get (a_var a1) (this_allocations t1)),
               (JsMap.get (a_var a1) (this_allocations t2));
        cbn in Hg; try discriminate; [|reflexivity].
      injection Hg as Hg. now rewrite <- !removelast_map, Hg.
    + rewrite !handleAllocation_analysis by assumption. rewrite <- Hv in *.
      unfold eraseIds in Hr. injection Hr as R1 R2 R3 R4 R5.
      destruct (JsMap.get (a_var a1) (this_allocations t1)) as [l1|],
               (JsMap.get (a_var a1) (this_allocations t2)) as [l2|];
        cbn in Hg; try discriminate.
      * injection Hg as Hg.
        pose proof (f_equal last_opt Hg) as Hlast.
        rewrite !last_opt_map in Hlast.
        destruct (last_opt l1) as [x1|], (last_opt l2) as [x2|];
          cbn in Hlast; try discriminate.
        -- assert (Hx : eraseAllocId x1 = eraseAllocId x2) by congruence.
           unfold eraseIds. cbn. rewrite !map_app, R1, R2, R3, R4, R5. cbn.
           now rewrite (reassignLeak_ids a1), (reassignLeak_ids a2), Ha, Hx.
        -- unfold eraseIds. cbn. rewrite !map_app, R1, R2, R3, R4, R5. cbn.
           now rewrite Ha.
      * unfold eraseIds. cbn. rewrite !map_app, R1, R2, R3, R4, R5. cbn.
        now rewrite Ha.
Qed.

Lemma handleFree_SimId f1 f2 st1 st2 :
  SimId st1 st2 ->
  f_var f1 = f_var f2 -> f_line f1 = f_line f2 ->
  f_lineText f1 = f_lineText f2 ->
  SimId (handleFree f1 st1) (handleFree f2 st2).
Proof.
  intros HS Hv Hline Htext.
  pose proof (SimId_get st1 st2 (f_var f1) HS) as Hg.
  destruct st1 as [t1 n1], st2 as [t2 n2]. destruct HS as (Hm & Hr & Hl).
  cbn [fst snd] in Hm, Hr, Hl, Hg. unfold handleFree.
  rewrite <- Hv, <- Hline, <- Htext.
  destruct (Js.is_empty (f_var f1)); [now split; [|split]|].
  unfold eraseIds in Hr. injection Hr as R1 R2 R3 R4 R5.
  destruct (JsMap.get (f_var f1) (this_allocations t1)) as [l1|],
           (JsMap.get (f_var f1) (this_allocations t2)) as [l2|];
    simpl in Hg; try discriminate.
  - injection Hg as Hg.
    pose proof (f_equal last_opt Hg) as Hlast.
    rewrite !last_opt_map in Hlast.
    pose proof (f_equal (@removelast Alloc) Hg) as Hrl.
    rewrite !removelast_map in Hrl.
    destruct (last_opt l1) as [x1|], (last_opt l2) as [x2|];
      simpl in Hlast; try discriminate.
    + destruct (removelast l1) as [|y1 r1] eqn:E1,
               (removelast l2) as [|y2 r2] eqn:E2;
        simpl in Hrl; try discriminate.
      * split; [|split; [|exact Hl]]; simpl.
        -- now rewrite !delete_mapValues, !set_mapValues, Hm.
        -- unfold eraseIds. simpl.
           rewrite !map_app, R1, R2, R3, R4, R5. reflexivity.
      * split; [|split; [|exact Hl]]; simpl.
        -- rewrite !set_mapValues, Hm. simpl. simpl in Hrl. now rewrite Hrl.
        -- unfold eraseIds. simpl.
           rewrite !map_app, R1, R2, R3, R4, R5. reflexivity.
    + split; [|split; [|exact Hl]]; simpl; [assumption|].
      unfold eraseIds. simpl. now rewrite R1, R2, R3, R4, R5.
  - split; [|split; [|exact Hl]]; simpl; [assumption|].
    unfold eraseIds. simpl. now rewrite R1, R2, R3, R4, R5.
Qed.

Lemma processNode_SimId now1 now2 code st1 st2 node :
  SimId st1 st2 ->
  SimId (processNode now1 code st1 node) (processNode now2 code st2 node).
Proof.
  intros HS. destruct st1 as [t1 n1], st2 as [t2 n2].
  pose proof HS as (_ & _ & Hl). cbn [fst] in Hl.
  unfold_processNode. destruct (n_type node).
  - match goal with
    | |- SimId (let '(_, _) := handleAllocation ?a1 ?s1 in _)
               (let '(_, _) := handleAllocation ?a2 ?s2 in _) =>
        assert (H : SimId (handleAllocation a1 s1) (handleAllocation a2 s2))
          by (apply handleAllocation_SimId;
              [exact HS|unfold eraseAllocId; cbn; now rewrite Hl]);
        destruct (handleAllocation a1 s1), (handleAllocation a2 s2)
    end.
    exact H.
  - match goal with
    | |- SimId (let '(_, _) := handleFree ?f1 ?s1 in _)
               (let '(_, _) := handleFree ?f2 ?s2 in _) =>
        assert (H : SimId (handleFree f1 s1) (handleFree f2 s2))
          by (apply handleFree_SimId; [exact HS|reflexivity..]);
        destruct (handleFree f1 s1), (handleFree f2 s2)
    end.
    exact H.
Qed.

Lemma processNodes_SimId now1 now2 code ns st1 st2 :
  SimId st1 st2 ->
  SimId (processNodes now1 code st1 ns) (processNodes now2 code st2 ns).
Proof.
  unfold processNodes. revert st1 st2.
  induction ns as [|n ns IH]; intros st1 st2 HS; simpl.
  - exact HS.
  - apply IH. now apply processNode_SimId.
Qed.

Lemma liveLeaks_ids (m : JsMap.t (list Alloc)) :
  liveLeaks m = liveLeaks (mapValues (map eraseAllocId) m).
Proof.
  induction m as [|[k l] m IH]; simpl; [reflexivity|].
  rewrite IH, map_map. reflexivity.
Qed.

Lemma scanLines_ids lines index an :
  eraseIds (scanLines index lines an) = scanLines index lines (eraseIds an).
Proof.
  revert index an. induction lines as [|l lines IH]; intros index an; simpl.
  - reflexivity.
  - rewrite IH. f_equal. unfold detectCodeQualityIssues.
    repeat break_match; reflexivity.
Qed.

(** X15. Two runs on the same input and language give the same outcome up
    to the allocation ids, whatever [Date.now()] returns. *)
Theorem X15_clock_reaches_ids_only :
  forall acorn (now1 now2 : nat -> N) (language : string) (input : JsInput),
    mapOutcome eraseIds (fst (analyzeSource acorn now1 input language))
    = mapOutcome eraseIds (fst (analyzeSource acorn now2 input language)).
Proof.
  intros acorn now1 now2 language input.
  unfold analyzeSource, analyze.
  destruct input as [t| | | | |]; try reflexivity.
  destruct (Js.is_empty t); [reflexivity|].
  cbn [this_astParser newMemoryAnalyzer].
  assert (HS : SimId (newMemoryAnalyzer acorn language, newAnalysis)
                     (newMemoryAnalyzer acorn language, newAnalysis))
    by (split; [|split]; reflexivity).
  apply (processNodes_SimId now1 now2 t (body (parse acorn language t)))
    in HS.
  destruct (processNodes now1 _ _ _) as [t1 n1],
           (processNodes now2 _ _ _) as [t2 n2].
  cbn [fst mapOutcome]. f_equal.
  destruct HS as (Hm & Hr & _). cbn [fst snd] in Hm, Hr.
  assert (Hq : eraseIds (scanLines 0 (Js.split_lines t) n1)
               = eraseIds (scanLines 0 (Js.split_lines t) n2))
    by now rewrite !scanLines_ids, Hr.
  unfold eraseIds in Hq |- *. injection Hq as Q1 Q2 Q3 Q4 Q5.
  cbn [findLeaks allocations frees leaks warnings timeline].
  now rewrite Q1, Q2, Q3, Q4, Q5, (liveLeaks_ids (this_allocations t1)),
    (liveLeaks_ids (this_allocations t2)), Hm.
Qed.

(* --------------------------------------------------------------------- *)
(** *** The arguments of the malloc family and the sizeof patterns *)

Lemma matches_needs c r st st' :
  matches r st st' -> needs c r = true ->
  exists u v, Regex.ms_rest st = u ++ String c v.
Proof.
  induction 1; cbn [needs]; intros N; try discriminate.
  - apply Ascii.eqb_eq in N. subst. now exists EmptyString, rest.
  - apply orb_true_iff in N. destruct N as [N|N].
    + now apply IHmatches1.
    + destruct (IHmatches2 N) as (u & v & E).
      destruct (matches_rest _ _ _ H) as (t & Et).
      exists (t ++ u), v. now rewrite Et, E, append_assoc.
  - now apply IHmatches.
Qed.

Lemma allChars_split p u c v :
  allChars p (u ++ String c v) -> p c = true.
Proof. induction u; cbn; tauto. Qed.

Lemma exec_needs_None r t :
  needs ")" r = true -> allChars notClose t -> Regex.exec r t = None.
Proof.
  intros N Ht. destruct (Regex.exec r t) as [m|] eqn:E; [|reflexivity].
  exfalso. apply search_from_sound in E.
  destruct E as (st & st' & M & _ & _ & (b & Eb)).
  destruct (matches_needs ")" r st st' M N) as (u & v & Eu).
  rewrite Eb, Eu in Ht. apply allChars_suffix in Ht.
  apply allChars_split in Ht. discriminate.
Qed.

Lemma patterns_args :
  Forall (captures 3 (wordOf (fun x : ascii => negb (Ascii.eqb x ")"))))
    patterns.
Proof.
  unfold patterns. repeat (apply Forall_cons; [|try apply Forall_nil]);
    solve_captures (matches_plus_cls (fun x : ascii => negb (Ascii.eqb x ")"))).
Qed.

Lemma parseCAllocation_args line lineNum originalLine functionName inLoop a :
  parseCAllocation line lineNum originalLine functionName inLoop = Some a ->
  isMallocFamily a ->
  exists t, n_args a = ArgsText t /\ wordOf notClose t.
Proof.
  unfold parseCAllocation, isMallocFamily.
  destruct (first_match patterns line) as [m|] eqn:E1.
  - intros [= <-] _. cbn [n_args]. eexists. split; [reflexivity|].
    exact (group_or_empty_captures 3 _ _ _ _ patterns_args E1).
  - destruct (first_match cppPatterns line) as [m|] eqn:E2; [|discriminate].
    intros [= <-]. cbn [n_function].
    destruct (Js.includes line "[" && Js.includes line "]"); cbn;
      intros [H|[H|[H|[]]]]; discriminate.
Qed.

Lemma parseCDeallocation_function line lineNum originalLine d :
  parseCDeallocation line lineNum originalLine = Some d ->
  n_function d = "free" \/ n_function d = "delete[]"
  \/ n_function d = "delete".
Proof.
  unfold parseCDeallocation.
  destruct (Regex.exec freePattern line);
    [|destruct (Regex.exec deleteArrayPattern line);
      [|destruct (Regex.exec deletePattern line); [|discriminate]]];
    intros [= <-]; cbn; tauto.
Qed.

(** X16. The arguments that the line scanner extracts for malloc, calloc
    and realloc are non-empty and stop before the first closing
    parenthesis, so neither sizeof pattern of [calculateSizeFromAST] ever
    matches them: for these events the size is estimated without the type
    that sizeof names. *)
Theorem X16_sizeof_never_matches :
  forall code : string,
    Forall (fun n =>
              isMallocFamily n ->
              exists t,
                n_args n = ArgsText t /\ wordOf notClose t
                /\ Regex.exec sizeofPattern1 (argsText (n_args n)) = None
                /\ Regex.exec sizeofPattern2 (argsText (n_args n)) = None)
      (body (parseC code)).
Proof.
  intros code. apply parseC_from.
  - intros s ln ol fn il a H Hm.
    destruct (parseCAllocation_args _ _ _ _ _ _ H Hm) as (t & -> & Ht).
    exists t. cbn [argsText]. split; [reflexivity|]. split; [exact Ht|].
    destruct Ht as [_ Ht]. split; apply exec_needs_None; try exact Ht;
      reflexivity.
  - intros s ln ol d H Hm. exfalso.
    apply parseCDeallocation_function in H. unfold isMallocFamily in Hm.
    destruct H as [H|[H|H]]; rewrite H in Hm;
      destruct Hm as [Hm|[Hm|[Hm|[]]]]; discriminate.
Qed.
